(** * The Etherscan source fetcher: rate-limited retry and response classification

    A shallow embedding of [EtherscanFetcher] (constructor, dispatch gate,
    retrying requester, and the five-way classifier [processResult]).

    JavaScript values are a small inductive type; strings are Rocq strings;
    the JavaScript host ([JSON.parse], [parseInt]) and the sibling module
    [./common] ([networksById], [makeFilename]) are interfaces, so that
    every statement holds for whatever the host and that module compute. *)

From Stdlib Require Import String Ascii List ZArith NArith Bool Lia DecimalString.
Import ListNotations.
Local Open Scope string_scope.
Local Open Scope list_scope.
Set Warnings "-register-all".

(** ** JavaScript values *)

(** The values [JSON.parse] can produce, plus [undefined].  Numbers are kept
    abstract in [Num] (IEEE doubles are never inspected by the fetcher).
    An object is the list of its own enumerable properties in enumeration
    order.  Strings are taken one character per code unit (the ASCII range).
    Two corners of JavaScript objects are left out, and no statement below
    depends on them: engines enumerate integer-like keys first, and
    assigning to the key [__proto__] sets the prototype. *)
Inductive JsValue (Num : Type) : Type :=
| JUndefined
| JNull
| JBool (b : bool)
| JNumber (n : Num)
| JString (s : string)
| JArray (items : list (JsValue Num))
| JObject (props : list (string * JsValue Num)).

Arguments JUndefined {Num}.
Arguments JNull {Num}.
Arguments JBool {Num} b.
Arguments JNumber {Num} n.
Arguments JString {Num} s.
Arguments JArray {Num} items.
Arguments JObject {Num} props.

(** What a [throw] can carry in this program. *)
Inductive Thrown : Type :=
| ThrownUndefined                 (* [throw lastError] with [lastError] never assigned *)
| Error (message : string)        (* [new Error(message)] *)
| TypeError (site : string)       (* property access on, or conversion of, null/undefined;
                                     [site] names the expression, not the engine's text *)
| Rejection (cause : string).     (* what the transport rejected with *)

Inductive Completion (A : Type) : Type :=
| Returns (a : A)
| Throws (e : Thrown).

Arguments Returns {A} a.
Arguments Throws {A} e.

Section Properties.
Context {Num : Type}.
Local Abbreviation Value := (JsValue Num).
Local Abbreviation Props := (list (string * JsValue Num)).

(** [obj[key]] restricted to own properties. *)
Fixpoint prop_get (key : string) (props : Props) : option Value :=
  match props with
  | [] => None
  | (k, v) :: rest => if k =? key then Some v else prop_get key rest
  end.

Definition has_key (key : string) (props : Props) : bool :=
  match prop_get key props with Some _ => true | None => false end.

(** [obj[key] = v]: an existing property keeps its place, a new one is
    appended. *)
Fixpoint prop_set (key : string) (v : Value) (props : Props) : Props :=
  match props with
  | [] => [(key, v)]
  | (k, old) :: rest =>
      if k =? key then (k, v) :: rest else (k, old) :: prop_set key v rest
  end.

(** [delete obj[key]]. *)
Definition prop_delete (key : string) (props : Props) : Props :=
  filter (fun kv => negb (fst kv =? key)) props.

(** The decimal property name of an array index. *)
Definition index_key (i : nat) : string :=
  NilEmpty.string_of_uint (Nat.to_uint i).

Fixpoint indexed_from (i : nat) (items : list Value) : Props :=
  match items with
  | [] => []
  | v :: rest => (index_key i, v) :: indexed_from (S i) rest
  end.

Definition chars (s : string) : list Value :=
  map (fun c => JString (String c EmptyString)) (list_ascii_of_string s).

(** The own enumerable string-keyed properties of the object a value
    converts to: nothing for booleans and numbers, the indexed characters
    of a string, the indexed items of an array. *)
Definition own_entries (v : Value) : Props :=
  match v with
  | JUndefined | JNull | JBool _ | JNumber _ => []
  | JString s => indexed_from 0 (chars s)
  | JArray items => indexed_from 0 items
  | JObject props => props
  end.

(** Object spread [{ ...v }]: null and undefined spread to nothing. *)
Definition spread (v : Value) : Props := own_entries v.

(** [Object.assign({}, ...objs)]: properties are set source by source,
    a later source overwriting an earlier one. *)
Definition Object_assign (target : Props) (objs : list Props) : Props :=
  fold_left (fun acc obj =>
               fold_left (fun acc' kv => prop_set (fst kv) (snd kv) acc') obj acc)
            objs target.

(** [v === s] for a string [s]. *)
Definition strict_eq_string (v : Value) (s : string) : bool :=
  match v with
  | JString t => t =? s
  | _ => false
  end.
End Properties.

(** ** Programs

    A program is a tree of host events; [Ret] and [Throw] are its two ways
    to complete.  Nothing here is coinductive: every program of the fetcher
    finishes. *)
Inductive Prog (E : Type -> Type) (A : Type) : Type :=
| Ret (a : A)
| Throw (e : Thrown)
| Vis {X : Type} (ev : E X) (k : X -> Prog E A).

Arguments Ret {E A} a.
Arguments Throw {E A} e.
Arguments Vis {E A X} ev k.

Fixpoint bind {E A B} (p : Prog E A) (f : A -> Prog E B) : Prog E B :=
  match p with
  | Ret a => f a
  | Throw e => Throw e
  | Vis ev k => Vis ev (fun x => bind (k x) f)
  end.

(** [try { body } catch (error) { handler }] where [body] ends the function
    when it returns. *)
Fixpoint tryCatch {E A} (body : Prog E A) (handler : Thrown -> Prog E A) : Prog E A :=
  match body with
  | Ret a => Ret a
  | Throw e => handler e
  | Vis ev k => Vis ev (fun x => tryCatch (k x) handler)
  end.

Declare Scope prog_scope.
Delimit Scope prog_scope with prog.
Notation "x <- p ;; q" := (bind p (fun x => q))
  (at level 61, p at next level, right associativity) : prog_scope.
Notation "p ;;; q" := (bind p (fun _ => q))
  (at level 61, right associativity) : prog_scope.
Local Open Scope prog_scope.

(** [xs.map(f)] for an [f] that may throw: the first throw ends the map. *)
Fixpoint mapP {E A B} (f : A -> Prog E B) (xs : list A) : Prog E (list B) :=
  match xs with
  | [] => Ret []
  | x :: rest => y <- f x ;; ys <- mapP f rest ;; Ret (y :: ys)
  end.

Definition trigger {E X} (ev : E X) : Prog E X := Vis ev Ret.

(** The one host call of the classifier.  [None] is the [SyntaxError] that
    [JSON.parse] throws on text that is not JSON. *)
Variant hostE (Num : Type) : Type -> Type :=
| JSON_parse_call (text : string) : hostE Num (option (JsValue Num)).

Arguments JSON_parse_call {Num} text.

(** The JavaScript host. *)
Class Host : Type := {
  Num : Type;
  parseInt : string -> Num;
  JSON_parse : string -> option (JsValue Num)
}.

(** What the fetcher imports from the sibling module [./common]: the table
    of network names ([None] is [undefined]) and the filename normaliser. *)
Class Common : Type := {
  NetworkId : Type;
  networksById : NetworkId -> option string;
  makeFilename : string -> string
}.

(** ** The provider's record and the canonical output *)

Record EtherscanResult : Type := {
  SourceCode : string;
  ABI : string;
  ContractName : string;
  CompilerVersion : string;
  OptimizationUsed : string;
  Runs : string;
  ConstructorArguments : string;
  EVMVersion : string;
  Library : string;
  LicenseType : string;
  Proxy : string;
  Implementation : string;
  SwarmSource : string
}.

Section Classifier.
Context {host : Host} {common : Common}.
Local Abbreviation Value := (JsValue Num).
Local Abbreviation Props := (list (string * JsValue Num)).
Local Abbreviation Sync := (Prog (hostE Num)).

Record CompilerOptions : Type := {
  language : string;
  version : string;
  settings : Props
}.

Record SourceInfo : Type := {
  sources : Props;
  options : CompilerOptions
}.

(** [v.key] for a name that is neither an index, nor [length], nor found on
    a built-in prototype (the fetcher reads [language], [sources],
    [settings] and [content] only). *)
Definition get_named (site : string) (v : Value) (key : string) : Sync Value :=
  match v with
  | JUndefined | JNull => Throw (TypeError site)
  | JObject props =>
      Ret (match prop_get key props with Some x => x | None => JUndefined end)
  | _ => Ret JUndefined
  end.

(** [Object.entries(v)]. *)
Definition Object_entries (site : string) (v : Value) : Sync Props :=
  match v with
  | JUndefined | JNull => Throw (TypeError site)
  | _ => Ret (own_entries v)
  end.

Definition isFullJson (sourceJson : Value) : Sync bool :=
  language <- get_named "sourceJson.language" sourceJson "language" ;;
  Ret (strict_eq_string language "Solidity").

Definition extractSettings (result : EtherscanResult) : Props :=
  let evmVersion : option string :=
    if EVMVersion result =? "Default" then None else Some (EVMVersion result) in
  let optimizer : Value :=
    JObject [("enabled", JBool (OptimizationUsed result =? "1"));
             ("runs", JNumber (parseInt (Runs result)))] in
  match evmVersion with
  | Some evmVersion => [("optimizer", optimizer); ("evmVersion", JString evmVersion)]
  | None => [("optimizer", optimizer)]
  end.

Definition removeLibraries (settings : Value) : Props :=
  let copySettings := spread settings in
  prop_delete "libraries" copySettings.

Definition processSources (sources : Value) : Sync Props :=
  entries <- Object_entries "Object.entries(sources)" sources ;;
  singles <- mapP (fun entry : string * Value =>
                     let (path, file) := entry in
                     source <- get_named "{ content: source }" file "content" ;;
                     Ret [(makeFilename path, source)]) entries ;;
  Ret (Object_assign [] singles).

Definition processSingleResult (result : EtherscanResult) : SourceInfo :=
  let filename := makeFilename (ContractName result) in
  {| sources := [(filename, JString (SourceCode result))];
     options := {| language := "Solidity";
                   version := CompilerVersion result;
                   settings := extractSettings result |} |}.

Definition processMultiResult (result : EtherscanResult) (sources : Value)
  : Sync SourceInfo :=
  srcs <- processSources sources ;;
  Ret {| sources := srcs;
         options := {| language := "Solidity";
                       version := CompilerVersion result;
                       settings := extractSettings result |} |}.

Definition processJsonResult (result : EtherscanResult) (jsonInput : Value)
  : Sync SourceInfo :=
  jsonSources <- get_named "jsonInput.sources" jsonInput "sources" ;;
  srcs <- processSources jsonSources ;;
  jsonSettings <- get_named "jsonInput.settings" jsonInput "settings" ;;
  Ret {| sources := srcs;
         options := {| language := "Solidity";
                       version := CompilerVersion result;
                       settings := removeLibraries jsonSettings |} |}.

Definition vyperInfo : SourceInfo :=
  {| sources := [];
     options := {| language := "Vyper"; version := ""; settings := [] |} |}.

Definition notVerified (result : EtherscanResult) : bool :=
  (SourceCode result =? "") && (ABI result =? "Contract source code not verified").

(** The argument is [None] when the caller passes [undefined] (the first
    element of an empty array). *)
Definition processResult (result : option EtherscanResult) : Sync (option SourceInfo) :=
  match result with
  | None => Throw (TypeError "result.SourceCode")
  | Some result =>
      (* case 1: the address doesn't exist *)
      if notVerified result then Ret None
      (* case 2: it's a Vyper contract *)
      else if prefix "vyper" (CompilerVersion result) then Ret (Some vyperInfo)
      else
        Vis (JSON_parse_call (SourceCode result)) (fun parsed =>
          match parsed with
          | None =>
              (* case 3: single source *)
              Ret (Some (processSingleResult result))
          | Some sourceJson =>
              full <- isFullJson sourceJson ;;
              if full : bool
              then (* case 5: full JSON input *)
                info <- processJsonResult result sourceJson ;; Ret (Some info)
              else (* case 4: multiple sources *)
                info <- processMultiResult result sourceJson ;; Ret (Some info)
          end)
  end.

(** Running a synchronous program against the host. *)
Fixpoint eval {A} (p : Sync A) : Completion A :=
  match p with
  | Ret a => Returns a
  | Throw e => Throws e
  | Vis ev k =>
      match ev in hostE _ X return (X -> Sync A) -> Completion A with
      | JSON_parse_call text => fun k => eval (k (JSON_parse text))
      end k
  end.

(** [classify] of the specification: [processResult] on a record. *)
Definition classify (record : EtherscanResult) : Completion (option SourceInfo) :=
  eval (processResult (Some record)).
End Classifier.

(** ** The fetcher instance *)

(** Milliseconds. *)
Definition Time : Type := N.

(** A promise made by [makeTimer]; it is resolved from its deadline on. *)
Record Timer : Type := { deadline : Time }.

(** Modelled from the spec: [makeTimer] of [./common] is absent from the
    sources; the specification describes its result as a readiness signal
    that resolves at or after a deadline, [ms] milliseconds after the call. *)
Definition makeTimer (now : Time) (ms : N) : Timer :=
  {| deadline := (now + ms)%N |}.

Definition resolved (t : Timer) (now : Time) : bool := (deadline t <=? now)%N.

(** The fields that are fixed by the constructor.  [suffix] stays [None]
    (undefined) on an unsupported network. *)
Record Fetcher : Type := {
  apiKey : string;
  timeout : N;
  validNetwork : bool;
  suffix : option string
}.

Definition supportedNetworks : list string :=
  ["mainnet"; "ropsten"; "kovan"; "rinkeby"; "goerli"].

(** [xs.includes(x)] on strings. *)
Definition includes (xs : list string) (x : string) : bool :=
  existsb (fun y => y =? x) xs.

(** Truthiness of a string: only the empty string is falsy. *)
Definition truthy (s : string) : bool := negb (s =? "").

(** [this.apiKey ? 200 : 334] *)
Definition timeoutFor (apiKey : string) : N :=
  if truthy apiKey then 200%N else 334%N.

Section Construction.
Context {common : Common}.

Definition constructor (networkId : NetworkId) : Fetcher :=
  let networkName := networksById networkId in
  let apiKey := "" in (* leaving out apiKey for now *)
  match networkName with
  | None =>
      {| apiKey := apiKey; timeout := timeoutFor apiKey;
         validNetwork := false; suffix := None |}
  | Some networkName =>
      if negb (includes supportedNetworks networkName)
      then {| apiKey := apiKey; timeout := timeoutFor apiKey;
              validNetwork := false; suffix := None |}
      else {| apiKey := apiKey; timeout := timeoutFor apiKey;
              validNetwork := true;
              suffix := Some (if networkName =? "mainnet" then "" else ("-" ++ networkName)%string) |}
  end.

Definition isNetworkValid (this : Fetcher) : bool := validNetwork this.
End Construction.

(** ** The wire protocol *)

Record EtherscanSuccess : Type := {    (* status: "1" *)
  success_message : string;
  success_result : list EtherscanResult
}.

Record EtherscanFailure : Type := {    (* status: "0" *)
  failure_message : string;
  failure_result : string
}.

Inductive EtherscanResponse : Type :=
| Success (response : EtherscanSuccess)
| Failure (response : EtherscanFailure).

Definition status (response : EtherscanResponse) : string :=
  match response with
  | Success _ => "1"
  | Failure _ => "0"
  end.

Record RequestOptions : Type := {
  uri : string;
  qs_module : string;
  qs_action : string;
  qs_address : string;
  qs_apikey : string;
  json : bool
}.

(** How the promise returned by [request] settles. *)
Variant TransportOutcome : Type :=
| Fulfilled (response : EtherscanResponse)
| Rejected (e : Thrown).

(** ** Asynchronous programs

    The events of the asynchronous methods.  [Await_ready] and
    [Await_response] suspend the caller; the others happen inside the
    caller's turn. *)
Variant fetchE (Num : Type) : Type -> Type :=
| Host_call {X : Type} (ev : hostE Num X) : fetchE Num X
| Await_ready : fetchE Num unit                      (* await this.ready *)
| Set_ready (ms : N) : fetchE Num unit               (* this.ready = makeTimer(ms) *)
| Issue_request (opts : RequestOptions) : fetchE Num unit   (* request(opts) is called *)
| Await_response : fetchE Num TransportOutcome.      (* await on the promise of request *)

Arguments Host_call {Num X} ev.
Arguments Await_ready {Num}.
Arguments Set_ready {Num} ms.
Arguments Issue_request {Num} opts.
Arguments Await_response {Num}.

Definition suspends {Num X} (ev : fetchE Num X) : bool :=
  match ev with
  | Await_ready | Await_response => true
  | _ => false
  end.

(** A synchronous program run inside an asynchronous method. *)
Fixpoint lift {Num A} (p : Prog (hostE Num) A) : Prog (fetchE Num) A :=
  match p with
  | Ret a => Ret a
  | Throw e => Throw e
  | Vis ev k => Vis (Host_call ev) (fun x => lift (k x))
  end.

(** Calling an async function without awaiting it: the callee runs inside
    the caller's turn up to its first [await]; what is left of it is the
    promise handed to the caller, and awaiting that promise is running what
    is left.  (Sound for a callee whose remainder touches no shared state,
    as is the case of [makeRequest].) *)
Fixpoint call_async {Num A B} (callee : Prog (fetchE Num) B)
    (k : Prog (fetchE Num) B -> Prog (fetchE Num) A) : Prog (fetchE Num) A :=
  match callee with
  | Vis ev rest =>
      if suspends ev then k callee
      else Vis ev (fun x => call_async (rest x) k)
  | _ => k callee
  end.

Section Requester.
Context {host : Host} {common : Common}.
Local Abbreviation Async := (Prog (fetchE Num)).

(** The template literal [`${x}`] on a possibly undefined string. *)
Definition template (x : option string) : string :=
  match x with
  | Some s => s
  | None => "undefined"
  end.

(** [request(opts)] of request-promise-native, awaited. *)
Definition request (opts : RequestOptions) : Async EtherscanResponse :=
  trigger (Issue_request opts) ;;;
  outcome <- trigger Await_response ;;
  match outcome with
  | Fulfilled response => Ret response
  | Rejected e => Throw e
  end.

Definition makeRequest (this : Fetcher) (address : string) : Async EtherscanSuccess :=
  (* not putting a try/catch around this; if it throws, we throw *)
  response <- request {| uri := ("https://api" ++ template (suffix this) ++ ".etherscan.io/api")%string;
                         qs_module := "contract";
                         qs_action := "getsourcecode";
                         qs_address := address;
                         qs_apikey := apiKey this;
                         json := true |} ;;
  match response with
  | Failure failure =>                       (* response.status === "0" *)
      Throw (Error (failure_result failure))
  | Success success => Ret success
  end.

Definition allowedAttempts : nat := 2.

(** The [for] loop of [getSuccessfulResponse], entered with
    [remaining = allowedAttempts - attempt]. *)
Fixpoint attemptLoop (remaining : nat) (lastError : Thrown)
    (this : Fetcher) (address : string) : Async EtherscanSuccess :=
  match remaining with
  | O => Throw lastError
  | S remaining' =>
      trigger Await_ready ;;;
      call_async (makeRequest this address) (fun responsePromise =>
        trigger (Set_ready (timeout this)) ;;;
        tryCatch responsePromise
                 (fun error => attemptLoop remaining' error this address))
  end.

Definition getSuccessfulResponse (this : Fetcher) (address : string)
  : Async EtherscanSuccess :=
  attemptLoop allowedAttempts ThrownUndefined this address.

Definition fetchSourcesForAddress (this : Fetcher) (address : string)
  : Async (option SourceInfo) :=
  response <- getSuccessfulResponse this address ;;
  lift (processResult (nth_error (success_result response) 0)).
End Requester.

(** ** Running the asynchronous methods *)

(** What the methods of one fetcher instance share: the clock, the mutable
    field [this.ready], and (for the statements below) the log of the
    requests issued so far, latest first, each with its dispatch time. *)
Record World : Type := {
  now : Time;
  ready : Timer;
  dispatched : list (Time * RequestOptions)
}.

(** The state right after [new EtherscanFetcher(id)] at time [start]:
    [this.ready = makeTimer(0)]. *)
Definition freshWorld (start : Time) : World :=
  {| now := start; ready := makeTimer start 0; dispatched := [] |}.

Definition at_time (t : Time) (w : World) : World :=
  {| now := t; ready := ready w; dispatched := dispatched w |}.

Definition set_ready (ms : N) (w : World) : World :=
  {| now := now w; ready := makeTimer (now w) ms; dispatched := dispatched w |}.

Definition issue (opts : RequestOptions) (w : World) : World :=
  {| now := now w; ready := ready w; dispatched := (now w, opts) :: dispatched w |}.

Definition dispatchTimes (w : World) : list Time := map fst (dispatched w).

(** [spaced interval times]: in a log that lists the latest dispatch first,
    each dispatch starts at least [interval] after the one before it. *)
Fixpoint spaced (interval : N) (times : list Time) : bool :=
  match times with
  | later :: rest =>
      match rest with
      | earlier :: _ => (earlier + interval <=? later)%N && spaced interval rest
      | [] => true
      end
  | [] => true
  end.

Section Semantics.
Context {host : Host} {common : Common}.
Local Abbreviation Async := (Prog (fetchE Num)).

Definition host_answer {X} (ev : hostE Num X) : X :=
  match ev in hostE _ X return X with
  | JSON_parse_call text => JSON_parse text
  end.

(** *** One caller at a time

    The environment of a lone caller: how late each timer wakes it up, how
    long each request takes, and how it settles.  Requests are numbered in
    dispatch order. *)
Record Environment : Type := {
  lag : nat -> N;
  latency : nat -> N;
  outcome : nat -> TransportOutcome
}.

Definition handle (env : Environment) {X} (ev : fetchE Num X) (w : World) : World * X :=
  match ev in fetchE _ X return World * X with
  | Host_call h => (w, host_answer h)
  | Set_ready ms => (set_ready ms w, tt)
  | Issue_request opts => (issue opts w, tt)
  | Await_ready =>
      let n := length (dispatched w) in
      (at_time (N.max (now w) (deadline (ready w)) + lag env n)%N w, tt)
  | Await_response =>
      let n := pred (length (dispatched w)) in
      (at_time (now w + latency env n)%N w, outcome env n)
  end.

Fixpoint exec {A} (env : Environment) (p : Async A) (w : World) : World * Completion A :=
  match p with
  | Ret a => (w, Returns a)
  | Throw e => (w, Throws e)
  | Vis ev k => let (w', x) := handle env ev w in exec env (k x) w'
  end.

(** *** Several callers

    A call runs until its first [await]; from then on it is a task, resumed
    by the event loop one turn at a time.  A task suspended in
    [await this.ready] holds the promise that [this.ready] was when it
    suspended. *)
Inductive Task (A : Type) : Type :=
| Settled (c : Completion A)
| Suspended {X : Type} (ev : fetchE Num X) (held : Timer) (k : X -> Async A).

Arguments Settled {A} c.
Arguments Suspended {A X} ev held k.

Definition inTurn {X} (ev : fetchE Num X) (w : World) : option (World * X) :=
  match ev in fetchE _ X return option (World * X) with
  | Host_call h => Some (w, host_answer h)
  | Set_ready ms => Some (set_ready ms w, tt)
  | Issue_request opts => Some (issue opts w, tt)
  | Await_ready => None
  | Await_response => None
  end.

(** One turn of the event loop: run to the next [await] or to completion. *)
Fixpoint turn {A} (p : Async A) (w : World) : World * Task A :=
  match p with
  | Ret a => (w, Settled (Returns a))
  | Throw e => (w, Settled (Throws e))
  | Vis ev k =>
      match inTurn ev w with
      | Some (w', x) => turn (k x) w'
      | None => (w, Suspended ev (ready w) k)
      end
  end.

Definition resumeOnTimer {A} (t : Task A) (w : World) : option (World * Task A) :=
  match t with
  | Settled _ => None
  | Suspended ev held k =>
      match ev in fetchE _ X return (X -> Async A) -> option (World * Task A) with
      | Await_ready => fun k => if resolved held (now w) then Some (turn (k tt) w) else None
      | _ => fun _ => None
      end k
  end.

Definition resumeOnResponse {A} (t : Task A) (o : TransportOutcome) (w : World)
  : option (World * Task A) :=
  match t with
  | Settled _ => None
  | Suspended ev held k =>
      match ev in fetchE _ X return (X -> Async A) -> option (World * Task A) with
      | Await_response => fun k => Some (turn (k o) w)
      | _ => fun _ => None
      end k
  end.

(** What can happen to a fetcher instance shared by several callers. *)
Inductive Action : Type :=
| Call (address : string)                       (* someone calls fetchSourcesForAddress *)
| Elapse (ms : N)                               (* time passes *)
| Timer_fires (task : nat)                      (* a task waiting on a resolved timer runs *)
| Response_arrives (task : nat) (o : TransportOutcome).

Definition Config : Type := World * list (Task (option SourceInfo)).

Fixpoint replace_nth {A} (i : nat) (x : A) (xs : list A) : list A :=
  match xs, i with
  | [], _ => []
  | _ :: rest, O => x :: rest
  | y :: rest, S i' => y :: replace_nth i' x rest
  end.

Definition step (this : Fetcher) (a : Action) (c : Config) : option Config :=
  let (w, tasks) := c in
  match a with
  | Call address =>
      let (w', t) := turn (fetchSourcesForAddress this address) w in
      Some (w', tasks ++ [t])
  | Elapse ms => Some (at_time (now w + ms)%N w, tasks)
  | Timer_fires i =>
      match nth_error tasks i with
      | Some t =>
          match resumeOnTimer t w with
          | Some (w', t') => Some (w', replace_nth i t' tasks)
          | None => None
          end
      | None => None
      end
  | Response_arrives i o =>
      match nth_error tasks i with
      | Some t =>
          match resumeOnResponse t o w with
          | Some (w', t') => Some (w', replace_nth i t' tasks)
          | None => None
          end
      | None => None
      end
  end.

Fixpoint run (this : Fetcher) (schedule : list Action) (c : Config) : option Config :=
  match schedule with
  | [] => Some c
  | a :: rest =>
      match step this a c with
      | Some c' => run this rest c'
      | None => None
      end
  end.
End Semantics.

Arguments Settled {host A} c.
Arguments Suspended {host A X} ev held k.

(** ** Vocabulary of the statements *)

(** How one attempt fails: the transport call throws, or the provider's
    envelope has the failure status and its result string is raised. *)
Inductive attemptFails : TransportOutcome -> Thrown -> Prop :=
| transport_throws (e : Thrown) : attemptFails (Rejected e) e
| provider_fails (f : EtherscanFailure) :
    attemptFails (Fulfilled (Failure f)) (Error (failure_result f)).

Definition isTypeError (e : Thrown) : Prop := exists site, e = TypeError site.

(** The request that [makeRequest] issues. *)
Definition requestFor (this : Fetcher) (address : string) : RequestOptions :=
  {| uri := ("https://api" ++ template (suffix this) ++ ".etherscan.io/api")%string;
     qs_module := "contract";
     qs_action := "getsourcecode";
     qs_address := address;
     qs_apikey := apiKey this;
     json := true |}.

(** The gate's invariant between the calls of a lone caller: the dispatches
    logged so far are spaced, and the timer in [this.ready] does not resolve
    before the interval has passed since the latest of them. *)
Definition gate_ok (interval : N) (w : World) : Prop :=
  spaced interval (dispatchTimes w) = true
  /\ forall t, hd_error (dispatchTimes w) = Some t -> (t + interval <= deadline (ready w))%N.

Section Vocabulary.
Context {host : Host} {common : Common}.
Local Abbreviation Props := (list (string * JsValue Num)).

(** When a lone caller is resumed from [await this.ready]. *)
Definition wakeTime (env : Environment) (w : World) : Time :=
  (N.max (now w) (deadline (ready w)) + lag env (length (dispatched w)))%N.

(** The world when the response to a request dispatched from [w] arrives. *)
Definition afterAttempt (env : Environment) (this : Fetcher) (address : string)
    (w : World) : World :=
  {| now := (wakeTime env w + latency env (length (dispatched w)))%N;
     ready := makeTimer (wakeTime env w) (timeout this);
     dispatched := (wakeTime env w, requestFor this address) :: dispatched w |}.

(** Fetches made one after the other, each awaited before the next. *)
Fixpoint fetchAll (env : Environment) (this : Fetcher) (addresses : list string)
    (w : World) : World :=
  match addresses with
  | [] => w
  | address :: rest =>
      fetchAll env this rest (fst (exec env (fetchSourcesForAddress this address) w))
  end.

(** Values whose properties can be read. *)
Definition traversable (v : JsValue Num) : bool :=
  match v with
  | JUndefined | JNull => false
  | _ => true
  end.

(** [file.content] of a source entry. *)
Definition contentOf (file : JsValue Num) : JsValue Num :=
  match file with
  | JObject props => match prop_get "content" props with Some x => x | None => JUndefined end
  | _ => JUndefined
  end.

(** The entries of a sources object under their normalised names. *)
Definition renamed (entries : Props) : Props :=
  map (fun entry => (makeFilename (fst entry), contentOf (snd entry))) entries.
End Vocabulary.

(** ** A reference host

    An executable [JSON.parse] and [parseInt] for texts in the ASCII range,
    used to run the fetcher on concrete records.  Numbers are kept as
    written: an integer literal as its value, any other literal as its text. *)
Module Reference.

Inductive Number : Type :=
| NaN
| Integer (z : Z)
| Decimal (literal : string).

Definition code (c : ascii) : N := N_of_ascii c.

Definition isc (c : ascii) (n : N) : bool := (code c =? n)%N.

Definition quote : ascii := ascii_of_N 34.

(** JSON whitespace: space, tab, line feed, carriage return. *)
Definition is_ws (c : ascii) : bool :=
  isc c 32 || isc c 9 || isc c 10 || isc c 13.

Definition is_digit (c : ascii) : bool :=
  (48 <=? code c)%N && (code c <=? 57)%N.

Fixpoint skip_ws (cs : list ascii) : list ascii :=
  match cs with
  | c :: rest => if is_ws c then skip_ws rest else cs
  | [] => []
  end.

Fixpoint span (p : ascii -> bool) (cs : list ascii) : list ascii * list ascii :=
  match cs with
  | c :: rest =>
      if p c then let (yes, no) := span p rest in (c :: yes, no) else ([], cs)
  | [] => ([], [])
  end.

Definition digit_value (c : ascii) : Z := Z.of_N (code c - 48).

Definition decimal_value (ds : list ascii) : Z :=
  fold_left (fun acc d => (10 * acc + digit_value d)%Z) ds 0%Z.

Definition hex_digit (c : ascii) : option N :=
  let n := code c in
  if (48 <=? n)%N && (n <=? 57)%N then Some (n - 48)%N
  else if (65 <=? n)%N && (n <=? 70)%N then Some (n - 55)%N
  else if (97 <=? n)%N && (n <=? 102)%N then Some (n - 87)%N
  else None.

(** The bytes of a code point below 65536 in UTF-8. *)
Definition utf8 (cp : N) : list ascii :=
  if (cp <? 128)%N then [ascii_of_N cp]
  else if (cp <? 2048)%N
       then [ascii_of_N (192 + cp / 64); ascii_of_N (128 + cp mod 64)]
       else [ascii_of_N (224 + cp / 4096);
             ascii_of_N (128 + (cp / 64) mod 64);
             ascii_of_N (128 + cp mod 64)].

(** The characters of a string literal after its opening quote, up to and
    including the closing one; [acc] holds the decoded text, reversed. *)
Fixpoint string_body (cs : list ascii) (acc : list ascii)
  : option (string * list ascii) :=
  match cs with
  | [] => None
  | c :: rest =>
      if isc c 34 then Some (string_of_list_ascii (rev acc), rest)
      else if (code c <? 32)%N then None
      else if isc c 92 then
        match rest with
        | [] => None
        | e :: rest' =>
            if isc e 34 then string_body rest' (quote :: acc)
            else if isc e 92 then string_body rest' (ascii_of_N 92 :: acc)
            else if isc e 47 then string_body rest' (ascii_of_N 47 :: acc)
            else if isc e 98 then string_body rest' (ascii_of_N 8 :: acc)
            else if isc e 102 then string_body rest' (ascii_of_N 12 :: acc)
            else if isc e 110 then string_body rest' (ascii_of_N 10 :: acc)
            else if isc e 114 then string_body rest' (ascii_of_N 13 :: acc)
            else if isc e 116 then string_body rest' (ascii_of_N 9 :: acc)
            else if isc e 117 then
              match rest' with
              | h1 :: h2 :: h3 :: h4 :: rest'' =>
                  match hex_digit h1, hex_digit h2, hex_digit h3, hex_digit h4 with
                  | Some a, Some b, Some c', Some d =>
                      string_body rest''
                        (rev (utf8 (((a * 16 + b) * 16 + c') * 16 + d)) ++ acc)
                  | _, _, _, _ => None
                  end
              | _ => None
              end
            else None
        end
      else string_body rest (c :: acc)
  end.

(** A number literal: an optional minus, then 0 or a run of digits that does
    not start with 0, then an optional fraction (a dot and digits) and an
    optional exponent (e or E, a sign, digits). *)
Definition number (cs : list ascii) : option (Number * list ascii) :=
  let (minus, cs1) :=
    match cs with
    | c :: rest => if isc c 45 then ([c], rest) else ([], cs)
    | [] => ([], cs)
    end in
  let (int, cs2) :=
    match cs1 with
    | c :: rest => if isc c 48 then ([c], rest) else span is_digit cs1
    | [] => ([], cs1)
    end in
  match int with
  | [] => None
  | _ :: _ =>
      let frac :=
        match cs2 with
        | c :: rest =>
            if isc c 46 then
              let (ds, cs3) := span is_digit rest in
              match ds with [] => None | _ :: _ => Some (c :: ds, cs3) end
            else Some ([], cs2)
        | [] => Some ([], cs2)
        end in
      match frac with
      | None => None
      | Some (frac, cs3) =>
          let expo :=
            match cs3 with
            | c :: rest =>
                if isc c 101 || isc c 69 then
                  let (sign, rest') :=
                    match rest with
                    | s :: r => if isc s 43 || isc s 45 then ([s], r) else ([], rest)
                    | [] => ([], rest)
                    end in
                  let (ds, cs4) := span is_digit rest' in
                  match ds with [] => None | _ :: _ => Some (c :: sign ++ ds, cs4) end
                else Some ([], cs3)
            | [] => Some ([], cs3)
            end in
          match expo with
          | None => None
          | Some (expo, cs4) =>
              match frac, expo with
              | [], [] =>
                  let v := decimal_value int in
                  Some (Integer (match minus with [] => v | _ :: _ => (- v)%Z end), cs4)
              | _, _ =>
                  Some (Decimal (string_of_list_ascii (minus ++ int ++ frac ++ expo)), cs4)
              end
          end
      end
  end.

Fixpoint starts_with (word : list ascii) (cs : list ascii) : option (list ascii) :=
  match word, cs with
  | [], _ => Some cs
  | w :: word', c :: rest => if Ascii.eqb w c then starts_with word' rest else None
  | _ :: _, [] => None
  end.

Definition literal (word : string) (v : JsValue Number) (cs : list ascii)
  : option (JsValue Number * list ascii) :=
  match starts_with (list_ascii_of_string word) cs with
  | Some rest => Some (v, rest)
  | None => None
  end.

(** Recursive descent; every call consumes a character, so the length of
    the text bounds the fuel needed. *)
Fixpoint value (fuel : nat) (cs : list ascii) : option (JsValue Number * list ascii) :=
  match fuel with
  | O => None
  | S fuel' =>
      match skip_ws cs with
      | [] => None
      | c :: rest =>
          if isc c 123 then
            match skip_ws rest with
            | c' :: rest' => if isc c' 125 then Some (JObject [], rest')
                             else members fuel' (skip_ws rest) []
            | [] => None
            end
          else if isc c 91 then
            match skip_ws rest with
            | c' :: rest' => if isc c' 93 then Some (JArray [], rest')
                             else elements fuel' (skip_ws rest) []
            | [] => None
            end
          else if isc c 34 then
            match string_body rest [] with
            | Some (s, rest') => Some (JString s, rest')
            | None => None
            end
          else if isc c 116 then literal "true" (JBool true) (c :: rest)
          else if isc c 102 then literal "false" (JBool false) (c :: rest)
          else if isc c 110 then literal "null" JNull (c :: rest)
          else
            match number (c :: rest) with
            | Some (n, rest') => Some (JNumber n, rest')
            | None => None
            end
      end
  end
with elements (fuel : nat) (cs : list ascii) (acc : list (JsValue Number))
  : option (JsValue Number * list ascii) :=
  match fuel with
  | O => None
  | S fuel' =>
      match value fuel' cs with
      | Some (v, rest) =>
          match skip_ws rest with
          | c :: rest' =>
              if isc c 44 then elements fuel' rest' (v :: acc)
              else if isc c 93 then Some (JArray (rev (v :: acc)), rest')
              else None
          | [] => None
          end
      | None => None
      end
  end
with members (fuel : nat) (cs : list ascii) (acc : list (string * JsValue Number))
  : option (JsValue Number * list ascii) :=
  match fuel with
  | O => None
  | S fuel' =>
      match skip_ws cs with
      | c :: rest =>
          if isc c 34 then
            match string_body rest [] with
            | Some (key, rest1) =>
                match skip_ws rest1 with
                | c1 :: rest2 =>
                    if isc c1 58 then
                      match value fuel' rest2 with
                      | Some (v, rest3) =>
                          (* a repeated key overwrites, keeping its first place *)
                          let acc' := prop_set key v acc in
                          match skip_ws rest3 with
                          | c3 :: rest4 =>
                              if isc c3 44 then members fuel' rest4 acc'
                              else if isc c3 125 then Some (JObject acc', rest4)
                              else None
                          | [] => None
                          end
                      | None => None
                      end
                    else None
                | [] => None
                end
            | None => None
            end
          else None
      | [] => None
      end
  end.

Definition json_parse (text : string) : option (JsValue Number) :=
  let cs := list_ascii_of_string text in
  match value (2 * length cs + 2) cs with
  | Some (v, rest) =>
      match skip_ws rest with
      | [] => Some v
      | _ :: _ => None
      end
  | None => None
  end.

(** [parseInt(s)] without a radix: leading whitespace, a sign, then the
    longest run of decimal digits (hexadecimal after [0x]); [NaN] when there
    is no digit.  Exact where the value is below 2^53. *)
Definition is_strws (c : ascii) : bool :=
  is_ws c || isc c 11 || isc c 12.

Fixpoint skip_strws (cs : list ascii) : list ascii :=
  match cs with
  | c :: rest => if is_strws c then skip_strws rest else cs
  | [] => []
  end.

Fixpoint hex_run (cs : list ascii) (acc : option Z) : option Z :=
  match cs with
  | c :: rest =>
      match hex_digit c with
      | Some d =>
          hex_run rest (Some (16 * match acc with Some a => a | None => 0 end + Z.of_N d)%Z)
      | None => acc
      end
  | [] => acc
  end.

Definition parse_int (s : string) : Number :=
  let cs := skip_strws (list_ascii_of_string s) in
  let (negative, cs1) :=
    match cs with
    | c :: rest => if isc c 45 then (true, rest)
                   else if isc c 43 then (false, rest) else (false, cs)
    | [] => (false, cs)
    end in
  let magnitude :=
    match cs1 with
    | z :: x :: rest =>
        if isc z 48 && (isc x 120 || isc x 88) then hex_run rest None
        else match fst (span is_digit cs1) with
             | [] => None
             | ds => Some (decimal_value ds)
             end
    | _ => match fst (span is_digit cs1) with
           | [] => None
           | ds => Some (decimal_value ds)
           end
    end in
  match magnitude with
  | None => NaN
  | Some m => Integer (if negative then (- m)%Z else m)
  end.

#[export] Instance host : Host :=
  {| Num := Number; parseInt := parse_int; JSON_parse := json_parse |}.

(** Writing JSON texts with apostrophes for the double quotes. *)
Definition dq (s : string) : string :=
  string_of_list_ascii
    (map (fun c => if isc c 39 then quote else c) (list_ascii_of_string s)).

Fixpoint ends_with_rev (suffix text : list ascii) : bool :=
  match suffix, text with
  | [], _ => true
  | s :: suffix', c :: text' => Ascii.eqb s c && ends_with_rev suffix' text'
  | _ :: _, [] => false
  end.

Definition endsWith (text suffix : string) : bool :=
  ends_with_rev (rev (list_ascii_of_string suffix)) (rev (list_ascii_of_string text)).

(** A sample [./common] for running examples: the public Ethereum networks
    by chain id, and filenames that get the extension [.sol] unless they
    carry it, as in the examples of the specification. *)
Definition sample_networks (id : Z) : option string :=
  match id with
  | 1%Z => Some "mainnet"
  | 3%Z => Some "ropsten"
  | 4%Z => Some "rinkeby"
  | 5%Z => Some "goerli"
  | 42%Z => Some "kovan"
  | 61%Z => Some "classic"
  | _ => None
  end.

Definition sample_filename (name : string) : string :=
  if endsWith name ".sol" then name else (name ++ ".sol")%string.

#[export] Instance common : Common :=
  {| NetworkId := Z; networksById := sample_networks; makeFilename := sample_filename |}.

Definition record (source abi name compiler optimized runs evm : string)
  : EtherscanResult :=
  {| SourceCode := source; ABI := abi; ContractName := name;
     CompilerVersion := compiler; OptimizationUsed := optimized; Runs := runs;
     ConstructorArguments := ""; EVMVersion := evm; Library := "";
     LicenseType := ""; Proxy := "0"; Implementation := ""; SwarmSource := "" |}.

Definition sentinel : string := "Contract source code not verified".

Definition unverified_record : EtherscanResult :=
  record "" sentinel "" "" "" "" "".

Definition vyper_record : EtherscanResult :=
  record "# @version 0.2.8" "[]" "Vault" "vyper:0.2.8" "0" "0" "Default".

Definition plain_record : EtherscanResult :=
  record "contract C {}" "[]" "C" "v0.8.0" "1" "200" "Default".

Definition multi_record : EtherscanResult :=
  record (dq "{'a.sol':{'content':'X'},'b.sol':{'content':'Y'}}")
         "[]" "C" "v0.8.0" "0" "200" "istanbul".

Definition json_record : EtherscanResult :=
  record (dq ("{'language':'Solidity','sources':{'a.sol':{'content':'X'}},"
              ++ "'settings':{'libraries':{'a.sol':{'L':'0x12'}},"
              ++ "'optimizer':{'enabled':true,'runs':1}}}"))
         "[]" "C" "v0.8.0" "1" "200" "Default".

(** A source text that is the JSON literal null. *)
Definition null_record : EtherscanResult :=
  record "null" "[]" "C" "v0.8.0" "1" "200" "Default".

(** No source text, yet an ABI. *)
Definition empty_record : EtherscanResult :=
  record "" "[]" "C" "v0.8.0" "1" "200" "Default".

Definition rate_limited : EtherscanFailure :=
  {| failure_message := "NOTOK"; failure_result := "Max rate limit reached" |}.

Definition two_records : EtherscanSuccess :=
  {| success_message := "OK"; success_result := [plain_record; vyper_record] |}.

(** A transport that times out, then is refused by the provider. *)
Definition failing_twice : Environment :=
  {| lag := fun _ => 0%N;
     latency := fun _ => 120%N;
     outcome := fun n =>
       match n with
       | O => Rejected (Rejection "ETIMEDOUT")
       | _ => Fulfilled (Failure rate_limited)
       end |}.

(** A transport that answers at once with two records. *)
Definition answering : Environment :=
  {| lag := fun _ => 0%N;
     latency := fun _ => 80%N;
     outcome := fun _ => Fulfilled (Success two_records) |}.

Definition mainnet_fetcher : Fetcher := constructor 1%Z.

End Reference.

(** ** More vocabulary: shapes of parsed JSON, traces, budgets *)

Section Shapes.
Context {host : Host} {common : Common}.
Local Abbreviation Value := (JsValue Num).
Local Abbreviation Props := (list (string * JsValue Num)).

(** [v.key] where reading it does not throw. *)
Definition named (v : Value) (key : string) : Value :=
  match v with
  | JObject props => match prop_get key props with Some x => x | None => JUndefined end
  | _ => JUndefined
  end.

(** A sources value the fetcher can walk: neither it nor any of its entries
    is null or undefined. *)
Definition sourcesOk (v : Value) : bool :=
  traversable v && forallb (fun entry => traversable (snd entry)) (own_entries v).

(** A parsed source text the classifier can walk. *)
Definition shapeOk (sourceJson : Value) : bool :=
  traversable sourceJson
  && (if strict_eq_string (named sourceJson "language") "Solidity"
      then sourcesOk (named sourceJson "sources")
      else sourcesOk sourceJson).

(** The texts handed to [JSON.parse] while a synchronous program runs. *)
Fixpoint parsedTexts {A} (p : Prog (hostE Num) A) : list string :=
  match p with
  | Ret _ => []
  | Throw _ => []
  | Vis ev k =>
      match ev in hostE _ X return (X -> Prog (hostE Num) A) -> list string with
      | JSON_parse_call text => fun k => text :: parsedTexts (k (JSON_parse text))
      end k
  end.

Definition isIssue {X} (ev : fetchE Num X) : bool :=
  match ev with
  | Issue_request _ => true
  | _ => false
  end.

(** [issuesAtMost n p]: whatever its environment answers, [p] calls
    [request] at most [n] times. *)
Inductive issuesAtMost {A : Type} : nat -> Prog (fetchE Num) A -> Prop :=
| issues_ret (n : nat) (a : A) : issuesAtMost n (Ret a)
| issues_throw (n : nat) (e : Thrown) : issuesAtMost n (Throw e)
| issues_request (n : nat) (opts : RequestOptions) (k : unit -> Prog (fetchE Num) A) :
    issuesAtMost n (k tt) -> issuesAtMost (S n) (Vis (Issue_request opts) k)
| issues_other (n : nat) {X : Type} (ev : fetchE Num X) (k : X -> Prog (fetchE Num) A) :
    isIssue ev = false ->
    (forall x, issuesAtMost n (k x)) -> issuesAtMost n (Vis ev k).

(** The same for a task of the event loop. *)
Definition taskIssuesAtMost (n : nat) (t : Task (option SourceInfo)) : Prop :=
  match t with
  | Settled _ => True
  | Suspended ev _ k => isIssue ev = false /\ forall x, issuesAtMost n (k x)
  end.

Definition isCall (a : Action) : bool :=
  match a with
  | Call _ => true
  | _ => false
  end.

(** The same for all the tasks of a configuration together. *)
Inductive tasksIssueAtMost : nat -> list (Task (option SourceInfo)) -> Prop :=
| tasks_none : tasksIssueAtMost 0 []
| tasks_more (m n : nat) (t : Task (option SourceInfo)) (ts : list (Task (option SourceInfo))) :
    taskIssuesAtMost m t -> tasksIssueAtMost n ts -> tasksIssueAtMost (m + n) (t :: ts).

(** How many calls of the fetch a schedule holds. *)
Definition calls (schedule : list Action) : nat :=
  length (filter isCall schedule).
End Shapes.

(** ** The decoder interface ([codec/lib/interface])

    The decoders themselves live in [./decoders]; their constructors and
    methods are events, so that the statements hold for whatever they do,
    throwing included.  Contract objects, providers and decoders are
    references. *)
Module Codec.
Section Interface.
Variables ContractObject Provider WireDecoder ContractDecoder ContractInstanceDecoder : Type.

(** Reference identity, as [Array.prototype.includes] compares objects. *)
Variable same : ContractObject -> ContractObject -> bool.

Variant decoderE : Type -> Type :=
| New_WireDecoder (contracts : list ContractObject) (provider : Provider)
  : decoderE WireDecoder
| New_ContractDecoder (contract : ContractObject) (decoder : WireDecoder)
  : decoderE ContractDecoder
| Init (decoder : ContractDecoder) : decoderE unit
| For_instance (decoder : ContractDecoder) (address : option string)
  : decoderE ContractInstanceDecoder.

Definition forProject (contracts : list ContractObject) (provider : Provider)
  : Prog decoderE WireDecoder :=
  trigger (New_WireDecoder contracts provider).

Definition forContract (contract : ContractObject)
    (relevantContracts : list ContractObject) (provider : Provider)
  : Prog decoderE ContractDecoder :=
  let contracts :=
    if existsb (fun other => same other contract) relevantContracts
    then relevantContracts
    else contract :: relevantContracts in
  wireDecoder <- forProject contracts provider ;;
  contractDecoder <- trigger (New_ContractDecoder contract wireDecoder) ;;
  trigger (Init contractDecoder) ;;;
  Ret contractDecoder.

Definition forContractInstance (contract : ContractObject)
    (relevantContracts : list ContractObject) (provider : Provider)
    (address : option string)
  : Prog decoderE ContractInstanceDecoder :=
  contractDecoder <- forContract contract relevantContracts provider ;;
  instanceDecoder <- trigger (For_instance contractDecoder address) ;;
  Ret instanceDecoder.

Definition forContractWithDecoder (contract : ContractObject) (decoder : WireDecoder)
  : Prog decoderE ContractDecoder :=
  contractDecoder <- trigger (New_ContractDecoder contract decoder) ;;
  trigger (Init contractDecoder) ;;;
  Ret contractDecoder.

(** Running against decoders that answer or throw. *)
Fixpoint perform {A} (answer : forall X, decoderE X -> Completion X)
    (p : Prog decoderE A) : Completion A :=
  match p with
  | Ret a => Returns a
  | Throw e => Throws e
  | Vis ev k =>
      match answer _ ev with
      | Returns x => perform answer (k x)
      | Throws e => Throws e
      end
  end.

(** The contract lists handed to [new WireDecoder] during a run. *)
Fixpoint projects {A} (answer : forall X, decoderE X -> Completion X)
    (p : Prog decoderE A) : list (list ContractObject) :=
  match p with
  | Ret _ => []
  | Throw _ => []
  | Vis ev k =>
      (match ev with
       | New_WireDecoder contracts _ => [contracts]
       | _ => []
       end)
      ++ match answer _ ev with
         | Returns x => projects answer (k x)
         | Throws _ => []
         end
  end.
End Interface.

Arguments New_WireDecoder {ContractObject Provider WireDecoder ContractDecoder
                           ContractInstanceDecoder} contracts provider.
Arguments New_ContractDecoder {ContractObject Provider WireDecoder ContractDecoder
                               ContractInstanceDecoder} contract decoder.
Arguments Init {ContractObject Provider WireDecoder ContractDecoder
                ContractInstanceDecoder} decoder.
Arguments For_instance {ContractObject Provider WireDecoder ContractDecoder
                        ContractInstanceDecoder} decoder address.
Arguments forProject {ContractObject Provider WireDecoder ContractDecoder
                      ContractInstanceDecoder} contracts provider.
Arguments forContract {ContractObject Provider WireDecoder ContractDecoder
                       ContractInstanceDecoder} same contract relevantContracts provider.
Arguments forContractInstance {ContractObject Provider WireDecoder ContractDecoder
                               ContractInstanceDecoder}
  same contract relevantContracts provider address.
Arguments forContractWithDecoder {ContractObject Provider WireDecoder ContractDecoder
                                  ContractInstanceDecoder} contract decoder.
Arguments perform {ContractObject Provider WireDecoder ContractDecoder
                   ContractInstanceDecoder A} answer p.
Arguments projects {ContractObject Provider WireDecoder ContractDecoder
                    ContractInstanceDecoder A} answer p.
End Codec.

(** ** More sample data on the reference host *)
Module Samples.
Import Reference.

Definition file (text : string) : JsValue Number :=
  JObject [("content", JString text)].

(** Two paths that the sample normaliser names alike. *)
Definition colliding_sources : JsValue Number :=
  JObject [("a", file "X"); ("a.sol", file "Y")].

(** What is left of them. *)
Definition merged_sources : list (string * JsValue Number) :=
  [("a.sol", JString "Y")].

(** A path whose entry is null. *)
Definition broken_sources : JsValue Number :=
  JObject [("a.sol", JNull)].

(** What [multi_record] and [json_record] parse to. *)
Definition multi_json : JsValue Number :=
  JObject [("a.sol", file "X"); ("b.sol", file "Y")].

Definition full_json : JsValue Number :=
  JObject [("language", JString "Solidity");
           ("sources", JObject [("a.sol", file "X")]);
           ("settings",
            JObject [("libraries", JObject [("a.sol", JObject [("L", JString "0x12")])]);
                     ("optimizer", JObject [("enabled", JBool true);
                                            ("runs", JNumber (Integer 1))])])].

(** [plain_record] with the fields that are never forwarded filled in. *)
Definition linked_record : EtherscanResult :=
  {| SourceCode := "contract C {}"; ABI := "[{}]"; ContractName := "C";
     CompilerVersion := "v0.8.0"; OptimizationUsed := "1"; Runs := "200";
     ConstructorArguments := "00ff"; EVMVersion := "Default";
     Library := "L:0x1234"; LicenseType := "MIT"; Proxy := "1";
     Implementation := "0xbeef"; SwarmSource := "bzzr://00" |}.

(** A source text that is a JSON number. *)
Definition number_record : EtherscanResult :=
  record "123" "[]" "C" "v0.8.0" "1" "200" "Default".

Definition racing : list Action :=
  [Call "0xA"; Call "0xB"; Timer_fires 0; Timer_fires 1].

End Samples.

(** * Properties *)

(** ** Property lists *)

Section PropertyFacts.
Context {Num : Type}.
Local Abbreviation Props := (list (string * JsValue Num)).

Lemma prop_get_delete_same (key : string) (props : Props) :
  prop_get key (prop_delete key props) = None.
Proof.
  induction props as [|[k v] rest IH]; simpl; [reflexivity|].
  destruct (k =? key)%string eqn:E; simpl; [exact IH|].
  rewrite E. exact IH.
Qed.

Lemma prop_get_delete_other (key other : string) (props : Props) :
  other <> key ->
  prop_get other (prop_delete key props) = prop_get other props.
Proof.
  intros Hne. induction props as [|[k v] rest IH]; simpl; [reflexivity|].
  destruct (k =? key)%string eqn:E; simpl.
  - apply String.eqb_eq in E. subst k.
    destruct (key =? other)%string eqn:E'; [|exact IH].
    apply String.eqb_eq in E'. congruence.
  - rewrite IH. reflexivity.
Qed.

Lemma prop_get_set_same (key : string) (v : JsValue Num) (props : Props) :
  prop_get key (prop_set key v props) = Some v.
Proof.
  induction props as [|[k old] rest IH]; simpl.
  - rewrite String.eqb_refl. reflexivity.
  - destruct (k =? key)%string eqn:E; simpl; rewrite E; [reflexivity|exact IH].
Qed.

Lemma prop_get_set_other (key other : string) (v : JsValue Num) (props : Props) :
  other <> key ->
  prop_get other (prop_set key v props) = prop_get other props.
Proof.
  intros Hne. induction props as [|[k old] rest IH]; simpl.
  - destruct (key =? other)%string eqn:E; [|reflexivity].
    apply String.eqb_eq in E. congruence.
  - destruct (k =? key)%string eqn:E; simpl.
    + apply String.eqb_eq in E. subst k.
      destruct (key =? other)%string eqn:E'; [|reflexivity].
      apply String.eqb_eq in E'. congruence.
    + rewrite IH. reflexivity.
Qed.

Lemma has_key_In (key : string) (props : Props) :
  has_key key props = true -> In key (map fst props).
Proof.
  unfold has_key. induction props as [|[k v] rest IH]; cbn [prop_get map fst In].
  - discriminate.
  - destruct (k =? key)%string eqn:E.
    + apply String.eqb_eq in E. left. exact E.
    + intros H. right. exact (IH H).
Qed.
End PropertyFacts.

(** ** Evaluation *)

Section ClassifierFacts.
Context {host : Host} {common : Common}.
Local Abbreviation Sync := (Prog (hostE Num)).

Lemma eval_bind {A B} (p : Sync A) (f : A -> Sync B) :
  eval (bind p f) =
  match eval p with
  | Returns a => eval (f a)
  | Throws e => Throws e
  end.
Proof.
  induction p as [a|e|X ev k IH]; simpl; try reflexivity.
  destruct ev. apply IH.
Qed.

Lemma notVerified_true (r : EtherscanResult) :
  notVerified r = true <->
  SourceCode r = "" /\ ABI r = "Contract source code not verified".
Proof.
  unfold notVerified. rewrite andb_true_iff, !String.eqb_eq. tauto.
Qed.

Lemma notVerified_false (r : EtherscanResult) :
  notVerified r = false <->
  ~ (SourceCode r = "" /\ ABI r = "Contract source code not verified").
Proof.
  rewrite <- notVerified_true. destruct (notVerified r); split; congruence.
Qed.

Lemma prefix_append (s rest : string) : prefix s (s ++ rest) = true.
Proof.
  induction s as [|c s IH]; simpl; [destruct rest; reflexivity|].
  destruct (ascii_dec c c); [exact IH|congruence].
Qed.

(** The classifier, one case at a time. *)
Lemma classify_cases (r : EtherscanResult) :
  classify r =
  if notVerified r then Returns None
  else if prefix "vyper" (CompilerVersion r) then Returns (Some vyperInfo)
  else match JSON_parse (SourceCode r) with
       | None => Returns (Some (processSingleResult r))
       | Some sourceJson =>
           match eval (isFullJson sourceJson) with
           | Returns true =>
               match eval (processJsonResult r sourceJson) with
               | Returns info => Returns (Some info)
               | Throws e => Throws e
               end
           | Returns false =>
               match eval (processMultiResult r sourceJson) with
               | Returns info => Returns (Some info)
               | Throws e => Throws e
               end
           | Throws e => Throws e
           end
       end.
Proof.
  unfold classify, processResult.
  destruct (notVerified r); [reflexivity|].
  destruct (prefix "vyper" (CompilerVersion r)); [reflexivity|].
  simpl. destruct (JSON_parse (SourceCode r)) as [sourceJson|]; [|reflexivity].
  rewrite eval_bind.
  destruct (eval (isFullJson sourceJson)) as [[|]|e]; [| |reflexivity].
  - rewrite eval_bind. destruct (eval (processJsonResult r sourceJson)); reflexivity.
  - rewrite eval_bind. destruct (eval (processMultiResult r sourceJson)); reflexivity.
Qed.

Lemma processMultiResult_settings (r : EtherscanResult) (v : JsValue Num) (info : SourceInfo) :
  eval (processMultiResult r v) = Returns info ->
  settings (options info) = extractSettings r.
Proof.
  unfold processMultiResult. rewrite eval_bind.
  destruct (eval (processSources v)); simpl; intros H; inversion H; reflexivity.
Qed.

Lemma processJsonResult_settings (r : EtherscanResult) (v : JsValue Num) (info : SourceInfo) :
  eval (processJsonResult r v) = Returns info ->
  exists jsonSettings, settings (options info) = removeLibraries jsonSettings.
Proof.
  unfold processJsonResult. rewrite eval_bind.
  destruct (eval (get_named _ v "sources")); [|discriminate].
  rewrite eval_bind.
  destruct (eval (processSources a)); [|discriminate].
  rewrite eval_bind.
  destruct (eval (get_named _ v "settings")) as [jsonSettings|]; [|discriminate].
  simpl. intros H. inversion H. exists jsonSettings. reflexivity.
Qed.

Lemma extractSettings_keys (r : EtherscanResult) :
  map fst (extractSettings r) =
  if (EVMVersion r =? "Default")%string then ["optimizer"] else ["optimizer"; "evmVersion"].
Proof.
  unfold extractSettings. destruct (EVMVersion r =? "Default")%string; reflexivity.
Qed.

Lemma extractSettings_optimizer (r : EtherscanResult) :
  prop_get "optimizer" (extractSettings r) =
  Some (JObject [("enabled", JBool (OptimizationUsed r =? "1")%string);
                 ("runs", JNumber (parseInt (Runs r)))]).
Proof.
  unfold extractSettings. destruct (EVMVersion r =? "Default")%string; reflexivity.
Qed.

Lemma extractSettings_evmVersion (r : EtherscanResult) :
  prop_get "evmVersion" (extractSettings r) =
  if (EVMVersion r =? "Default")%string then None else Some (JString (EVMVersion r)).
Proof.
  unfold extractSettings. destruct (EVMVersion r =? "Default")%string; reflexivity.
Qed.

Lemma extractSettings_no_libraries (r : EtherscanResult) :
  prop_get "libraries" (extractSettings r) = None.
Proof.
  unfold extractSettings. destruct (EVMVersion r =? "Default")%string; reflexivity.
Qed.

Lemma removeLibraries_no_libraries (v : JsValue Num) :
  prop_get "libraries" (removeLibraries v) = None.
Proof. apply prop_get_delete_same. Qed.

Lemma get_named_throws site (v : JsValue Num) key e :
  eval (get_named site v key) = Throws e -> isTypeError e.
Proof.
  destruct v; simpl; intros H; inversion H; eexists; reflexivity.
Qed.

Lemma mapP_throws {A B} (f : A -> Sync B) (xs : list A) e :
  eval (mapP f xs) = Throws e -> exists x, In x xs /\ eval (f x) = Throws e.
Proof.
  induction xs as [|x rest IH]; simpl; [discriminate|].
  rewrite eval_bind. destruct (eval (f x)) eqn:E.
  - rewrite eval_bind. destruct (eval (mapP f rest)); simpl; [discriminate|].
    intros H; inversion H; subst. destruct IH as [y [Hin Hy]]; [reflexivity|].
    exists y. split; [right; exact Hin|exact Hy].
  - intros H; inversion H; subst. exists x. split; [left; reflexivity|exact E].
Qed.

Lemma processSources_throws (v : JsValue Num) e :
  eval (processSources v) = Throws e -> isTypeError e.
Proof.
  unfold processSources. rewrite eval_bind.
  destruct (eval (Object_entries _ v)) as [entries|e'] eqn:E.
  - rewrite eval_bind.
    destruct (eval (mapP _ entries)) as [singles|e'] eqn:E'; simpl; [discriminate|].
    intros H; inversion H; subst e'.
    apply mapP_throws in E'. destruct E' as [[path file] [_ Hx]].
    rewrite eval_bind in Hx.
    destruct (eval (get_named _ file "content")) eqn:G; simpl in Hx; [discriminate|].
    inversion Hx; subst. eapply get_named_throws; exact G.
  - intros H; inversion H; subst e'.
    destruct v; simpl in E; inversion E; eexists; reflexivity.
Qed.

Lemma isFullJson_throws (v : JsValue Num) e :
  eval (isFullJson v) = Throws e -> isTypeError e.
Proof.
  unfold isFullJson. rewrite eval_bind.
  destruct (eval (get_named _ v "language")) eqn:G; simpl; [discriminate|].
  intros H; inversion H; subst. eapply get_named_throws; exact G.
Qed.

Lemma processMultiResult_throws r (v : JsValue Num) e :
  eval (processMultiResult r v) = Throws e -> isTypeError e.
Proof.
  unfold processMultiResult. rewrite eval_bind.
  destruct (eval (processSources v)) eqn:G; simpl; [discriminate|].
  intros H; inversion H; subst. eapply processSources_throws; exact G.
Qed.

Lemma processJsonResult_throws r (v : JsValue Num) e :
  eval (processJsonResult r v) = Throws e -> isTypeError e.
Proof.
  unfold processJsonResult. rewrite eval_bind.
  destruct (eval (get_named _ v "sources")) as [a|] eqn:G1.
  - rewrite eval_bind. destruct (eval (processSources a)) eqn:G2.
    + rewrite eval_bind.
      destruct (eval (get_named _ v "settings")) eqn:G3; simpl; [discriminate|].
      intros H; inversion H; subst. eapply get_named_throws; exact G3.
    + intros H; inversion H; subst. eapply processSources_throws; exact G2.
  - intros H; inversion H; subst. eapply get_named_throws; exact G1.
Qed.

(** C1. A record that is not the unverified one and whose compiler version
    begins with "vyper" is classified as the fixed Vyper result, and the
    program that does so performs no JSON.parse call: it is a plain return. *)
Theorem vyper_precedes_parse (r : EtherscanResult) (rest : string) :
  ~ (SourceCode r = "" /\ ABI r = "Contract source code not verified") ->
  CompilerVersion r = ("vyper" ++ rest)%string ->
  processResult (Some r) =
    Ret (Some {| sources := [];
                 options := {| language := "Vyper"; version := ""; settings := [] |} |})
  /\ classify r =
    Returns (Some {| sources := [];
                     options := {| language := "Vyper"; version := ""; settings := [] |} |}).
Proof.
  intros Hver Hvy. apply notVerified_false in Hver.
  assert (processResult (Some r) = Ret (Some vyperInfo)) as E.
  { unfold processResult. rewrite Hver, Hvy, prefix_append. reflexivity. }
  split; [exact E|]. unfold classify. rewrite E. reflexivity.
Qed.

(** C4. A record that is neither unverified nor Vyper and whose source text
    is not JSON yields one source entry, the source text under the
    normalised contract name, with language Solidity, the record's compiler
    version, the optimizer settings read off the flat fields, and an
    [evmVersion] key exactly when the field is not "Default". *)
Theorem single_file_case (r : EtherscanResult) :
  ~ (SourceCode r = "" /\ ABI r = "Contract source code not verified") ->
  prefix "vyper" (CompilerVersion r) = false ->
  JSON_parse (SourceCode r) = None ->
  exists st,
    classify r =
      Returns (Some {| sources := [(makeFilename (ContractName r), JString (SourceCode r))];
                       options := {| language := "Solidity";
                                     version := CompilerVersion r;
                                     settings := st |} |})
    /\ prop_get "optimizer" st =
         Some (JObject [("enabled", JBool (OptimizationUsed r =? "1")%string);
                        ("runs", JNumber (parseInt (Runs r)))])
    /\ (has_key "evmVersion" st = true <-> EVMVersion r <> "Default")
    /\ (EVMVersion r <> "Default" ->
          prop_get "evmVersion" st = Some (JString (EVMVersion r)))
    /\ (forall key, has_key key st = true -> key = "optimizer" \/ key = "evmVersion").
Proof.
  intros Hver Hvy Hparse. apply notVerified_false in Hver.
  exists (extractSettings r).
  split; [rewrite classify_cases, Hver, Hvy, Hparse; reflexivity|].
  rewrite extractSettings_optimizer. split; [reflexivity|].
  unfold has_key at 1. rewrite extractSettings_evmVersion.
  destruct (EVMVersion r =? "Default")%string eqn:E.
  - apply String.eqb_eq in E.
    split; [split; [discriminate|congruence]|]. split; [congruence|].
    intros key Hkey. apply has_key_In in Hkey.
    rewrite extractSettings_keys, (proj2 (String.eqb_eq _ _) E) in Hkey.
    destruct Hkey as [<-|[]]. left; reflexivity.
  - apply String.eqb_neq in E.
    split; [split; [intros _; exact E|reflexivity]|]. split; [reflexivity|].
    intros key Hkey. apply has_key_In in Hkey.
    rewrite extractSettings_keys, (proj2 (String.eqb_neq _ _) E) in Hkey.
    destruct Hkey as [<-|[<-|[]]]; [left|right]; reflexivity.
Qed.

(** C10. An empty source text whose ABI is not the not-verified sentinel
    (and whose compiler is not Vyper) is not classified as null: JSON.parse
    fails on the empty text, and the single-file case maps the normalised
    contract name to the empty text. *)
Theorem empty_source_is_single_file (r : EtherscanResult) :
  JSON_parse "" = None ->
  SourceCode r = "" ->
  ABI r <> "Contract source code not verified" ->
  prefix "vyper" (CompilerVersion r) = false ->
  classify r =
    Returns (Some {| sources := [(makeFilename (ContractName r), JString "")];
                     options := {| language := "Solidity";
                                   version := CompilerVersion r;
                                   settings := extractSettings r |} |})
  /\ classify r <> Returns None.
Proof.
  intros Hhost Hsrc Habi Hvy.
  assert (notVerified r = false) as Hver.
  { apply notVerified_false. intros [_ E]. exact (Habi E). }
  assert (classify r = Returns (Some (processSingleResult r))) as E.
  { rewrite classify_cases, Hver, Hvy, Hsrc, Hhost. reflexivity. }
  rewrite E. unfold processSingleResult. rewrite Hsrc.
  split; [reflexivity|discriminate].
Qed.
End ClassifierFacts.

(** ** The network table *)

Section NetworkFacts.
Context {common : Common}.

Lemma includes_In (xs : list string) (x : string) :
  includes xs x = true <-> In x xs.
Proof.
  unfold includes. rewrite existsb_exists. split.
  - intros [y [Hin E]]. apply String.eqb_eq in E. subst y. exact Hin.
  - intros Hin. exists x. split; [exact Hin|apply String.eqb_refl].
Qed.

(** C8. A network id whose name is one of mainnet, ropsten, kovan, rinkeby
    and goerli gives a valid fetcher, with the empty suffix for mainnet and
    a hyphen followed by the name for the other four; any other id,
    including one that the table does not know, gives an invalid one. *)
Theorem network_validity (id : NetworkId) :
  (forall name,
      networksById id = Some name ->
      In name ["mainnet"; "ropsten"; "kovan"; "rinkeby"; "goerli"] ->
      isNetworkValid (constructor id) = true
      /\ (name = "mainnet" -> suffix (constructor id) = Some "")
      /\ (name <> "mainnet" -> suffix (constructor id) = Some ("-" ++ name)%string))
  /\ ((forall name,
         networksById id = Some name ->
         ~ In name ["mainnet"; "ropsten"; "kovan"; "rinkeby"; "goerli"]) ->
      isNetworkValid (constructor id) = false).
Proof.
  unfold isNetworkValid, constructor. split.
  - intros name Hname Hin. rewrite Hname.
    apply (includes_In supportedNetworks) in Hin. rewrite Hin. simpl.
    split; [reflexivity|]. split.
    + intros ->. reflexivity.
    + intros Hne. apply String.eqb_neq in Hne. rewrite Hne. reflexivity.
  - intros Hout. destruct (networksById id) as [name|]; [|reflexivity].
    destruct (includes supportedNetworks name) eqn:E; [|reflexivity].
    apply includes_In in E. exfalso. exact (Hout name eq_refl E).
Qed.
End NetworkFacts.

(** ** The retrying requester *)

Section RequesterFacts.
Context {host : Host} {common : Common}.
Local Abbreviation Async := (Prog (fetchE Num)).

Lemma exec_bind {A B} (env : Environment) (p : Async A) (f : A -> Async B) (w : World) :
  exec env (bind p f) w =
  match exec env p w with
  | (w1, Returns a) => exec env (f a) w1
  | (w1, Throws e) => (w1, Throws e)
  end.
Proof.
  revert w. induction p as [a|e|X ev k IH]; intros w; simpl; try reflexivity.
  destruct (handle env ev w) as [w' x]. apply IH.
Qed.

Lemma exec_lift {A} (env : Environment) (p : Prog (hostE Num) A) (w : World) :
  exec env (lift p) w = (w, eval p).
Proof.
  induction p as [a|e|X ev k IH]; simpl; try reflexivity.
  destruct ev. simpl. apply IH.
Qed.

(** One pass through the loop body. *)
Lemma exec_attempt (env : Environment) (remaining : nat) (lastError : Thrown)
    (this : Fetcher) (address : string) (w : World) :
  exec env (attemptLoop (S remaining) lastError this address) w =
  match outcome env (length (dispatched w)) with
  | Fulfilled (Success s) => (afterAttempt env this address w, Returns s)
  | Fulfilled (Failure f) =>
      exec env (attemptLoop remaining (Error (failure_result f)) this address)
           (afterAttempt env this address w)
  | Rejected e =>
      exec env (attemptLoop remaining e this address) (afterAttempt env this address w)
  end.
Proof.
  cbn -[N.max N.add].
  destruct (outcome env (length (dispatched w))) as [[s|f]|e]; reflexivity.
Qed.

Lemma wakeTime_gated (env : Environment) (w : World) :
  (deadline (ready w) <= wakeTime env w)%N.
Proof. unfold wakeTime. lia. Qed.

Lemma wakeTime_after (env : Environment) (this : Fetcher) (address : string) (w : World) :
  (wakeTime env w + timeout this <= wakeTime env (afterAttempt env this address w))%N.
Proof. unfold wakeTime at 2. cbn -[N.max N.add wakeTime]. lia. Qed.

(** C5. One logical fetch makes at most two gated attempts.  A first
    attempt that succeeds is returned at once, after one dispatch; a first
    attempt that fails is followed by a second one, dispatched no sooner
    than the interval after the first; the second attempt's result is
    returned if it succeeds, and its own error is thrown as it is if it
    fails. *)
Theorem two_attempts_last_error (this : Fetcher) (address : string)
    (env : Environment) (w : World) :
  let n := length (dispatched w) in
  let final := fst (exec env (getSuccessfulResponse this address) w) in
  let result := snd (exec env (getSuccessfulResponse this address) w) in
  (forall s, outcome env n = Fulfilled (Success s) ->
     result = Returns s
     /\ exists t1, dispatched final = (t1, requestFor this address) :: dispatched w
                   /\ (deadline (ready w) <= t1)%N)
  /\ (forall e1, attemptFails (outcome env n) e1 ->
       (exists t1 t2,
           dispatched final =
             (t2, requestFor this address) :: (t1, requestFor this address) :: dispatched w
           /\ (deadline (ready w) <= t1)%N /\ (t1 + timeout this <= t2)%N)
       /\ (forall s, outcome env (S n) = Fulfilled (Success s) -> result = Returns s)
       /\ (forall e2, attemptFails (outcome env (S n)) e2 -> result = Throws e2))
  /\ length (dispatched final) <= n + 2.
Proof.
  cbv zeta. unfold getSuccessfulResponse, allowedAttempts.
  rewrite exec_attempt.
  pose proof (wakeTime_gated env w) as G1.
  pose proof (wakeTime_after env this address w) as G2.
  set (w1 := afterAttempt env this address w) in *.
  assert (forall last,
             exec env (attemptLoop 1 last this address) w1 =
             (afterAttempt env this address w1,
              match outcome env (S (length (dispatched w))) with
              | Fulfilled (Success s) => Returns s
              | Fulfilled (Failure f) => Throws (Error (failure_result f))
              | Rejected e => Throws e
              end)) as Second.
  { intros last. rewrite exec_attempt.
    change (length (dispatched w1)) with (S (length (dispatched w))).
    destruct (outcome env (S (length (dispatched w)))) as [[s|f]|e]; reflexivity. }
  split; [|split].
  - intros s Hs. rewrite Hs. split; [reflexivity|].
    exists (wakeTime env w). split; [reflexivity|exact G1].
  - intros e1 Hfail. inversion Hfail as [e Ho|f Ho]; rewrite Second; cbn [fst snd].
    all: split; [exists (wakeTime env w), (wakeTime env w1); auto|].
    all: split; [intros s Hs; rewrite Hs; reflexivity|].
    all: intros e2 Hfail2; inversion Hfail2; reflexivity.
  - destruct (outcome env (length (dispatched w))) as [[s|f]|e];
      [|rewrite Second..]; cbn; lia.
Qed.

(** C9. On a successful response the fetch classifies the first record of
    the result array and nothing else: the records after it do not matter,
    and with an empty array the classifier is handed undefined, on which it
    throws. *)
Theorem first_record_only (this : Fetcher) (address : string) (env : Environment)
    (w final : World) (response : EtherscanSuccess) :
  exec env (getSuccessfulResponse this address) w = (final, Returns response) ->
  exec env (fetchSourcesForAddress this address) w =
    (final, eval (processResult (nth_error (success_result response) 0)))
  /\ (forall first others,
        success_result response = first :: others ->
        exec env (fetchSourcesForAddress this address) w = (final, classify first))
  /\ (success_result response = [] ->
        exec env (fetchSourcesForAddress this address) w =
          (final, Throws (TypeError "result.SourceCode"))).
Proof.
  intros Hresp.
  assert (exec env (fetchSourcesForAddress this address) w =
          (final, eval (processResult (nth_error (success_result response) 0)))) as E.
  { unfold fetchSourcesForAddress. rewrite exec_bind, Hresp. apply exec_lift. }
  split; [exact E|]. split.
  - intros first others Hres. rewrite E, Hres. reflexivity.
  - intros Hres. rewrite E, Hres. reflexivity.
Qed.

(** ** The dispatch gate *)

Lemma gate_ok_fresh (interval : N) (start : Time) : gate_ok interval (freshWorld start).
Proof. split; [reflexivity|discriminate]. Qed.

Lemma gate_ok_afterAttempt (env : Environment) (this : Fetcher) (address : string)
    (w : World) :
  gate_ok (timeout this) w -> gate_ok (timeout this) (afterAttempt env this address w).
Proof.
  intros [Hsp Hrd]. pose proof (wakeTime_gated env w) as G. split.
  - unfold dispatchTimes in *. cbn [afterAttempt dispatched map fst spaced].
    destruct (map fst (dispatched w)) as [|t rest] eqn:E; [reflexivity|].
    rewrite Hsp, andb_true_r. apply N.leb_le.
    specialize (Hrd t eq_refl). lia.
  - intros t Ht. cbn in Ht. inversion Ht; subst t. cbn. lia.
Qed.

Lemma gate_ok_attemptLoop (env : Environment) (remaining : nat) (lastError : Thrown)
    (this : Fetcher) (address : string) (w : World) :
  gate_ok (timeout this) w ->
  gate_ok (timeout this) (fst (exec env (attemptLoop remaining lastError this address) w)).
Proof.
  revert lastError w. induction remaining as [|remaining IH]; intros lastError w Hok.
  - exact Hok.
  - rewrite exec_attempt.
    pose proof (gate_ok_afterAttempt env this address w Hok) as Hok'.
    destruct (outcome env (length (dispatched w))) as [[s|f]|e].
    + exact Hok'.
    + apply IH. exact Hok'.
    + apply IH. exact Hok'.
Qed.

(** A lone caller: fetches made one after the other keep the dispatches
    of the instance at least the interval apart. *)
Lemma gate_ok_fetch (env : Environment) (this : Fetcher) (address : string) (w : World) :
  gate_ok (timeout this) w ->
  gate_ok (timeout this) (fst (exec env (fetchSourcesForAddress this address) w)).
Proof.
  intros Hok. unfold fetchSourcesForAddress. rewrite exec_bind.
  pose proof (gate_ok_attemptLoop env allowedAttempts ThrownUndefined this address w Hok) as H.
  unfold getSuccessfulResponse.
  destruct (exec env (attemptLoop allowedAttempts ThrownUndefined this address) w)
    as [w1 [response|e]]; [|exact H].
  rewrite exec_lift. exact H.
Qed.

Lemma sequential_fetches_spaced (env : Environment) (this : Fetcher)
    (addresses : list string) (start : Time) :
  spaced (timeout this) (dispatchTimes (fetchAll env this addresses (freshWorld start))) = true.
Proof.
  assert (forall w, gate_ok (timeout this) w ->
                    gate_ok (timeout this) (fetchAll env this addresses w)) as H.
  { induction addresses as [|a rest IH]; intros w Hok; [exact Hok|].
    simpl. apply IH. apply gate_ok_fetch. exact Hok. }
  apply (H (freshWorld start) (gate_ok_fresh _ _)).
Qed.

Lemma timeoutFor_interval (key : string) :
  (key <> "" -> timeoutFor key = 200%N) /\ (key = "" -> timeoutFor key = 334%N).
Proof.
  unfold timeoutFor, truthy. split.
  - intros Hne. apply String.eqb_neq in Hne. rewrite Hne. reflexivity.
  - intros ->. reflexivity.
Qed.

Lemma constructor_timeout (id : NetworkId) : timeout (constructor id) = 334%N.
Proof.
  unfold constructor. destruct (networksById id) as [name|]; [|reflexivity].
  destruct (negb (includes supportedNetworks name)); reflexivity.
Qed.

(** C6, on the source.  Two callers that call the fetcher before its first
    timer fires both wait on that one timer; when it fires each of them
    dispatches in its own turn, at the same instant, although the interval
    is 334 ms. *)
Theorem concurrent_callers_dispatch_together (id : NetworkId) (a b : string) (start : Time) :
  exists w tasks,
    run (constructor id) [Call a; Call b; Timer_fires 0; Timer_fires 1] (freshWorld start, [])
      = Some (w, tasks)
    /\ dispatchTimes w = [start; start]
    /\ map (fun d => qs_address (snd d)) (dispatched w) = [b; a]
    /\ timeout (constructor id) = 334%N
    /\ spaced (timeout (constructor id)) (dispatchTimes w) = false.
Proof.
  assert (resolved (makeTimer start 0) start = true) as R.
  { unfold resolved, makeTimer. cbn [deadline]. apply N.leb_le. lia. }
  eexists. eexists. split.
  - cbn -[N.add N.leb resolved makeTimer constructor]. rewrite R.
    cbn -[N.add N.leb resolved makeTimer constructor]. rewrite R.
    cbn -[N.add N.leb resolved makeTimer constructor]. reflexivity.
  - cbn -[N.add N.leb constructor]. split; [reflexivity|]. split; [reflexivity|].
    rewrite constructor_timeout. split; [reflexivity|].
    cbn -[N.add N.leb]. rewrite andb_true_r. apply N.leb_gt. lia.
Qed.
End RequesterFacts.

Section GateAndSources.
Context {host : Host} {common : Common}.
Local Abbreviation Async := (Prog (fetchE Num)).
Local Abbreviation Props := (list (string * JsValue Num)).

Lemma at_time_now (w : World) : at_time (now w) w = w.
Proof. destruct w; reflexivity. Qed.

Lemma run_app (this : Fetcher) (s1 s2 : list Action) (c : Config) :
  run this (s1 ++ s2) c =
  match run this s1 c with
  | Some c' => run this s2 c'
  | None => None
  end.
Proof.
  revert c. induction s1 as [|a s1 IH]; intros c; simpl; [reflexivity|].
  destruct (step this a c); [apply IH|reflexivity].
Qed.

(** The run of a lone caller is one of the runs of the event loop: time
    passes, the task's timer fires, its response arrives. *)
Lemma exec_is_a_run (this : Fetcher) (env : Environment)
    (p : Async (option SourceInfo)) (w : World) :
  exists schedule,
    run this schedule (fst (turn p w), [snd (turn p w)]) =
    Some (fst (exec env p w), [Settled (snd (exec env p w))]).
Proof.
  revert w. induction p as [a|e|X ev k IH]; intros w.
  - exists []. reflexivity.
  - exists []. reflexivity.
  - destruct ev as [X h| |ms|opts|].
    + cbn. apply IH.
    + destruct (IH tt (at_time (wakeTime env w) w)) as [schedule Hs].
      exists (Elapse (wakeTime env w - now w) :: Timer_fires 0 :: schedule).
      cbn -[N.add N.sub N.max wakeTime resolved].
      assert (now w + (wakeTime env w - now w) = wakeTime env w)%N as ->
        by (unfold wakeTime; lia).
      assert (resolved (ready w) (wakeTime env w) = true) as ->.
      { unfold resolved. apply N.leb_le. apply wakeTime_gated. }
      destruct (turn (k tt) (at_time (wakeTime env w) w)) as [w1 t1] eqn:T.
      exact Hs.
    + cbn. apply IH.
    + cbn. apply IH.
    + set (n := pred (length (dispatched w))).
      destruct (IH (outcome env n) (at_time (now w + latency env n)%N w)) as [schedule Hs].
      exists (Elapse (latency env n) :: Response_arrives 0 (outcome env n) :: schedule).
      cbn -[N.add]. fold n.
      destruct (turn (k (outcome env n)) (at_time (now w + latency env n)%N w))
        as [w1 t1] eqn:T.
      exact Hs.
Qed.

Lemma Object_assign_singletons (kvs acc : Props) :
  Object_assign acc (map (fun kv => [kv]) kvs) =
  fold_left (fun acc kv => prop_set (fst kv) (snd kv) acc) kvs acc.
Proof.
  unfold Object_assign. revert acc.
  induction kvs as [|kv kvs IH]; intros acc; [reflexivity|].
  cbn [map fold_left]. apply IH.
Qed.

Lemma processSources_eval (sources : JsValue Num) :
  traversable sources = true ->
  forallb (fun entry => traversable (snd entry)) (own_entries sources) = true ->
  eval (processSources sources) =
  Returns (fold_left (fun acc kv => prop_set (fst kv) (snd kv) acc)
                     (renamed (own_entries sources)) []).
Proof.
  intros Hs Hall. unfold processSources. rewrite eval_bind.
  assert (eval (Object_entries "Object.entries(sources)" sources)
          = Returns (own_entries sources)) as ->.
  { destruct sources; try discriminate Hs; reflexivity. }
  rewrite eval_bind.
  set (f := fun entry : string * JsValue Num =>
              let (path, file) := entry in
              source <- get_named "{ content: source }" file "content" ;;
              Ret [(makeFilename path, source)]).
  assert (forall entries,
             forallb (fun entry => traversable (snd entry)) entries = true ->
             eval (mapP f entries) =
             Returns (map (fun kv => [kv]) (renamed entries))) as M.
  { induction entries as [|[path file] rest IH]; intros Hr; [reflexivity|].
    simpl in Hr. apply andb_true_iff in Hr. destruct Hr as [Hf Hr].
    cbn [mapP]. rewrite eval_bind.
    assert (eval (f (path, file)) = Returns [(makeFilename path, contentOf file)]) as ->.
    { unfold f. rewrite eval_bind.
      destruct file; try discriminate Hf; reflexivity. }
    rewrite eval_bind, (IH Hr). reflexivity. }
  rewrite (M _ Hall). cbn [eval]. f_equal. apply Object_assign_singletons.
Qed.

Lemma prop_set_fresh (key : string) (v : JsValue Num) (props : Props) :
  ~ In key (map fst props) -> prop_set key v props = props ++ [(key, v)].
Proof.
  induction props as [|[k old] rest IH]; intros Hnot; [reflexivity|].
  cbn [prop_set]. destruct (k =? key)%string eqn:E.
  - apply String.eqb_eq in E. exfalso. apply Hnot. left. exact E.
  - cbn [app]. f_equal. apply IH. intros Hin. apply Hnot. right. exact Hin.
Qed.

Lemma assign_distinct (kvs acc : Props) :
  NoDup (map fst (acc ++ kvs)) ->
  fold_left (fun acc kv => prop_set (fst kv) (snd kv) acc) kvs acc = acc ++ kvs.
Proof.
  revert acc. induction kvs as [|[k v] kvs IH]; intros acc Hnd.
  - rewrite app_nil_r. reflexivity.
  - cbn [fold_left fst snd].
    rewrite prop_set_fresh.
    + rewrite IH; rewrite <- app_assoc; [reflexivity|exact Hnd].
    + rewrite map_app in Hnd. cbn [map fst] in Hnd.
      apply NoDup_remove_2 in Hnd. intros Hin. apply Hnd.
      apply in_or_app. left. exact Hin.
Qed.

(** Where the normalised names of the entries are pairwise distinct, the
    output holds every entry under its normalised name, in order. *)
Lemma processSources_distinct (sources : JsValue Num) :
  traversable sources = true ->
  forallb (fun entry => traversable (snd entry)) (own_entries sources) = true ->
  NoDup (map (fun entry => makeFilename (fst entry)) (own_entries sources)) ->
  eval (processSources sources) = Returns (renamed (own_entries sources)).
Proof.
  intros Hs Hall Hnd. rewrite (processSources_eval _ Hs Hall).
  rewrite assign_distinct; [reflexivity|].
  cbn [app]. unfold renamed. rewrite map_map. exact Hnd.
Qed.

(** Where two paths have one normalised name, the text of the first is
    overwritten by the text of the second. *)
Lemma processSources_collision (path1 path2 : string) (text1 text2 : JsValue Num) :
  makeFilename path1 = makeFilename path2 ->
  eval (processSources (JObject [(path1, JObject [("content", text1)]);
                                 (path2, JObject [("content", text2)])])) =
  Returns [(makeFilename path2, text2)].
Proof.
  intros Hsame. rewrite processSources_eval; [|reflexivity|reflexivity].
  cbn -[String.eqb]. rewrite Hsame, String.eqb_refl. reflexivity.
Qed.
End GateAndSources.


(** * More of the fetcher *)

Section SourcesFacts.
Context {host : Host} {common : Common}.
Local Abbreviation Value := (JsValue Num).
Local Abbreviation Props := (list (string * JsValue Num)).
Local Abbreviation Sync := (Prog (hostE Num)).

Lemma prop_get_app (key : string) (xs ys : Props) :
  prop_get key (xs ++ ys) =
  match prop_get key xs with
  | Some v => Some v
  | None => prop_get key ys
  end.
Proof.
  induction xs as [|[k v] xs IH]; cbn [app prop_get]; [reflexivity|].
  destruct (k =? key)%string; [reflexivity|exact IH].
Qed.

Lemma In_has_key (key : string) (props : Props) :
  In key (map fst props) -> has_key key props = true.
Proof.
  unfold has_key. induction props as [|[k v] rest IH]; cbn [map fst In prop_get].
  - intros [].
  - intros [E|Hin].
    + subst k. rewrite String.eqb_refl. reflexivity.
    + destruct (k =? key)%string; [reflexivity|exact (IH Hin)].
Qed.

Lemma prop_set_keys (key : string) (v : Value) (props : Props) :
  map fst (prop_set key v props) =
  if has_key key props then map fst props else map fst props ++ [key].
Proof.
  unfold has_key. induction props as [|[k old] rest IH]; cbn [prop_set prop_get map fst app].
  - reflexivity.
  - destruct (k =? key)%string eqn:E; cbn [map fst]; [reflexivity|].
    rewrite IH. destruct (prop_get key rest); reflexivity.
Qed.

Lemma prop_set_NoDup (key : string) (v : Value) (props : Props) :
  NoDup (map fst props) -> NoDup (map fst (prop_set key v props)).
Proof.
  intros Hnd. rewrite prop_set_keys. destruct (has_key key props) eqn:E; [exact Hnd|].
  apply NoDup_app; [exact Hnd|repeat constructor; intros []|].
  intros x Hx [<-|[]]. apply In_has_key in Hx. congruence.
Qed.

(** [Object.assign] of single-property objects, one property at a time. *)
Lemma assign_get (kvs acc : Props) (name : string) :
  prop_get name (fold_left (fun acc kv => prop_set (fst kv) (snd kv) acc) kvs acc) =
  match prop_get name (rev kvs) with
  | Some v => Some v
  | None => prop_get name acc
  end.
Proof.
  revert acc. induction kvs as [|[k v] kvs IH]; intros acc; [reflexivity|].
  cbn [fold_left fst snd rev]. rewrite IH, prop_get_app.
  destruct (prop_get name (rev kvs)); [reflexivity|].
  cbn [prop_get]. destruct (k =? name)%string eqn:E.
  - apply String.eqb_eq in E. subst k. apply prop_get_set_same.
  - apply String.eqb_neq in E. apply prop_get_set_other. congruence.
Qed.

Lemma assign_NoDup (kvs acc : Props) :
  NoDup (map fst acc) ->
  NoDup (map fst (fold_left (fun acc kv => prop_set (fst kv) (snd kv) acc) kvs acc)).
Proof.
  revert acc. induction kvs as [|[k v] kvs IH]; intros acc Hnd; [exact Hnd|].
  cbn [fold_left fst snd]. apply IH. apply prop_set_NoDup. exact Hnd.
Qed.

Lemma mapP_content_throws (entries : Props) :
  forallb (fun entry => traversable (snd entry)) entries = false ->
  eval (mapP (fun entry : string * Value =>
                let (path, file) := entry in
                source <- get_named "{ content: source }" file "content" ;;
                Ret [(makeFilename path, source)]) entries)
  = Throws (TypeError "{ content: source }").
Proof.
  induction entries as [|[path file] rest IH]; cbn [forallb snd]; [discriminate|].
  intros H. cbn [mapP]. rewrite eval_bind, eval_bind.
  destruct (traversable file) eqn:T.
  - cbn [andb] in H.
    assert (eval (get_named "{ content: source }" file "content")
            = Returns (contentOf file)) as ->
        by (destruct file; try discriminate T; reflexivity).
    cbn [eval]. rewrite eval_bind, (IH H). reflexivity.
  - destruct file; try discriminate T; reflexivity.
Qed.

(** What [processSources] computes, on every value. *)
Lemma processSources_result (sources : Value) :
  eval (processSources sources) =
  if traversable sources
  then if forallb (fun entry => traversable (snd entry)) (own_entries sources)
       then Returns (fold_left (fun acc kv => prop_set (fst kv) (snd kv) acc)
                               (renamed (own_entries sources)) [])
       else Throws (TypeError "{ content: source }")
  else Throws (TypeError "Object.entries(sources)").
Proof.
  destruct (traversable sources) eqn:T.
  - destruct (forallb _ (own_entries sources)) eqn:F.
    + apply processSources_eval; assumption.
    + unfold processSources. rewrite eval_bind.
      assert (eval (Object_entries "Object.entries(sources)" sources)
              = Returns (own_entries sources)) as ->
          by (destruct sources; try discriminate T; reflexivity).
      rewrite eval_bind, (mapP_content_throws _ F). reflexivity.
  - destruct sources; try discriminate T; reflexivity.
Qed.

(** X1. In the object that [processSources] returns, a filename maps to
    the content of the last input entry whose path normalises to it, and
    is absent when no path does: later entries win over earlier ones. *)
Theorem processSources_last_wins (sources : Value) (out : Props) :
  eval (processSources sources) = Returns out ->
  forall name,
    prop_get name out =
    prop_get name (rev (map (fun entry => (makeFilename (fst entry), contentOf (snd entry)))
                            (own_entries sources))).
Proof.
  rewrite processSources_result.
  destruct (traversable sources); [|discriminate].
  destruct (forallb _ (own_entries sources)); [|discriminate].
  intros H name. inversion H; subst out. rewrite assign_get.
  fold (renamed (own_entries sources)).
  destruct (prop_get name (rev (renamed (own_entries sources)))); reflexivity.
Qed.

(** X2. The object that [processSources] returns has one property per
    distinct normalised path and no other: its keys are pairwise distinct
    and are exactly the normalised paths of the input entries. *)
Theorem processSources_keys (sources : Value) (out : Props) :
  eval (processSources sources) = Returns out ->
  NoDup (map fst out)
  /\ forall name,
       In name (map fst out) <->
       In name (map (fun entry => makeFilename (fst entry)) (own_entries sources)).
Proof.
  rewrite processSources_result.
  destruct (traversable sources); [|discriminate].
  destruct (forallb _ (own_entries sources)); [|discriminate].
  intros H. inversion H; subst out. split.
  - apply assign_NoDup. constructor.
  - intros name.
    assert (map (fun entry : string * Value => makeFilename (fst entry)) (own_entries sources)
            = map fst (renamed (own_entries sources))) as ->
        by (unfold renamed; rewrite map_map; reflexivity).
    set (kvs := renamed (own_entries sources)).
    assert (has_key name (fold_left (fun acc kv => prop_set (fst kv) (snd kv) acc) kvs [])
            = has_key name (rev kvs)) as E.
    { unfold has_key. rewrite assign_get.
      destruct (prop_get name (rev kvs)); reflexivity. }
    split.
    + intros Hin. apply In_has_key in Hin. rewrite E in Hin.
      apply has_key_In in Hin. rewrite map_rev in Hin. apply in_rev in Hin. exact Hin.
    + intros Hin. apply has_key_In. rewrite E. apply In_has_key.
      rewrite map_rev. apply -> in_rev. exact Hin.
Qed.

(** X3. [processSources] throws exactly when the sources value, or the
    value of one of its entries, is null or undefined; what it throws is a
    TypeError, and otherwise it returns. *)
Theorem processSources_throws_iff (sources : Value) :
  ((exists e, eval (processSources sources) = Throws e) <->
     traversable sources = false
     \/ exists path file, In (path, file) (own_entries sources) /\ traversable file = false)
  /\ (forall e, eval (processSources sources) = Throws e -> exists site, e = TypeError site)
  /\ ((exists out, eval (processSources sources) = Returns out) <->
        sourcesOk sources = true).
Proof.
  rewrite processSources_result. unfold sourcesOk.
  destruct (traversable sources) eqn:T.
  - destruct (forallb _ (own_entries sources)) eqn:F.
    + split; [|split].
      * split; [intros [e E]; discriminate E|].
        intros [E|[path [file [Hin Hf]]]]; [discriminate E|].
        rewrite forallb_forall in F. specialize (F _ Hin). cbn in F. congruence.
      * intros e E. discriminate E.
      * split; [reflexivity|]. intros _. eexists; reflexivity.
    + split; [|split].
      * split; [|intros _; eexists; reflexivity].
        intros _. right.
        assert (forall entries : Props,
                   forallb (fun entry => traversable (snd entry)) entries = false ->
                   exists entry, In entry entries /\ traversable (snd entry) = false) as Ex.
        { induction entries as [|entry rest IH]; cbn [forallb]; [discriminate|].
          destruct (traversable (snd entry)) eqn:E; cbn [andb]; intros H.
          - destruct (IH H) as [x [Hin Hx]]. exists x. split; [right|]; assumption.
          - exists entry. split; [left; reflexivity|exact E]. }
        destruct (Ex _ F) as [[path file] [Hin Hf]].
        exists path, file. split; assumption.
      * intros e E. inversion E. eexists; reflexivity.
      * split; [intros [out E]; discriminate E|discriminate].
  - split; [|split].
    + split; [intros _; left; reflexivity|intros _; eexists; reflexivity].
    + intros e E. inversion E. eexists; reflexivity.
    + split; [intros [out E]; discriminate E|discriminate].
Qed.
End SourcesFacts.

Section CaseFacts.
Context {host : Host} {common : Common}.
Local Abbreviation Value := (JsValue Num).
Local Abbreviation Props := (list (string * JsValue Num)).
Local Abbreviation Sync := (Prog (hostE Num)).

Lemma get_named_result (site : string) (v : Value) (key : string) :
  eval (get_named site v key) =
  if traversable v then Returns (named v key) else Throws (TypeError site).
Proof. destruct v; reflexivity. Qed.

Lemma sourcesOk_result (v : Value) :
  eval (processSources v) =
  if sourcesOk v
  then Returns (fold_left (fun acc kv => prop_set (fst kv) (snd kv) acc)
                          (renamed (own_entries v)) [])
  else Throws (TypeError (if traversable v then "{ content: source }"
                          else "Object.entries(sources)")).
Proof.
  unfold sourcesOk. rewrite processSources_result.
  destruct (traversable v); [|reflexivity].
  destruct (forallb _ (own_entries v)); reflexivity.
Qed.

Lemma strict_eq_Solidity_traversable (v : Value) :
  strict_eq_string (named v "language") "Solidity" = true -> traversable v = true.
Proof. destruct v; cbn; congruence. Qed.

(** The classifier on a source text that parses. *)
Lemma classify_parsed (r : EtherscanResult) (sourceJson : Value) :
  notVerified r = false ->
  prefix "vyper" (CompilerVersion r) = false ->
  JSON_parse (SourceCode r) = Some sourceJson ->
  classify r =
  if traversable sourceJson
  then if strict_eq_string (named sourceJson "language") "Solidity"
       then match eval (processSources (named sourceJson "sources")) with
            | Returns srcs =>
                Returns (Some {| sources := srcs;
                                 options := {| language := "Solidity";
                                               version := CompilerVersion r;
                                               settings :=
                                                 removeLibraries (named sourceJson "settings") |} |})
            | Throws e => Throws e
            end
       else match eval (processSources sourceJson) with
            | Returns srcs =>
                Returns (Some {| sources := srcs;
                                 options := {| language := "Solidity";
                                               version := CompilerVersion r;
                                               settings := extractSettings r |} |})
            | Throws e => Throws e
            end
  else Throws (TypeError "sourceJson.language").
Proof.
  intros Hver Hvy Hparse. rewrite classify_cases, Hver, Hvy, Hparse.
  unfold isFullJson. rewrite eval_bind, get_named_result.
  destruct (traversable sourceJson) eqn:T; [|reflexivity].
  cbn [eval].
  destruct (strict_eq_string (named sourceJson "language") "Solidity").
  - unfold processJsonResult. rewrite eval_bind, get_named_result, T, eval_bind.
    destruct (eval (processSources (named sourceJson "sources"))); [|reflexivity].
    rewrite eval_bind, get_named_result, T. reflexivity.
  - unfold processMultiResult. rewrite eval_bind.
    destruct (eval (processSources sourceJson)); reflexivity.
Qed.

(** X4. The multi-source case: a source text that parses to a value
    without the Solidity language tag, each of whose entries can be read,
    yields the entries' contents under their normalised paths (the last one
    winning on a shared name), with language Solidity, the record's
    compiler version and the settings of the flat fields. *)
Theorem multi_source_case (r : EtherscanResult) (sourceJson : Value) :
  ~ (SourceCode r = "" /\ ABI r = "Contract source code not verified") ->
  prefix "vyper" (CompilerVersion r) = false ->
  JSON_parse (SourceCode r) = Some sourceJson ->
  strict_eq_string (named sourceJson "language") "Solidity" = false ->
  sourcesOk sourceJson = true ->
  exists srcs,
    classify r =
      Returns (Some {| sources := srcs;
                       options := {| language := "Solidity";
                                     version := CompilerVersion r;
                                     settings := extractSettings r |} |})
    /\ forall name,
         prop_get name srcs =
         prop_get name
           (rev (map (fun entry => (makeFilename (fst entry), contentOf (snd entry)))
                     (own_entries sourceJson))).
Proof.
  intros Hver Hvy Hparse Hlang Hok. apply notVerified_false in Hver.
  rewrite (classify_parsed r sourceJson Hver Hvy Hparse), Hlang.
  assert (traversable sourceJson = true) as ->
      by (unfold sourcesOk in Hok; apply andb_true_iff in Hok; tauto).
  rewrite sourcesOk_result, Hok.
  eexists. split; [reflexivity|].
  intros name. rewrite assign_get. fold (renamed (own_entries sourceJson)).
  destruct (prop_get name (rev (renamed (own_entries sourceJson)))); reflexivity.
Qed.

(** X5. The full-JSON case: a source text that parses to an object tagged
    with language Solidity yields the contents of its [sources] under their
    normalised paths and its own [settings] minus the [libraries] key; the
    compiler version still comes from the record, and the record's
    optimizer, runs, EVM version and contract name play no part. *)
Theorem full_json_case (r : EtherscanResult) (sourceJson : Value) :
  ~ (SourceCode r = "" /\ ABI r = "Contract source code not verified") ->
  prefix "vyper" (CompilerVersion r) = false ->
  JSON_parse (SourceCode r) = Some sourceJson ->
  strict_eq_string (named sourceJson "language") "Solidity" = true ->
  sourcesOk (named sourceJson "sources") = true ->
  exists srcs st,
    classify r =
      Returns (Some {| sources := srcs;
                       options := {| language := "Solidity";
                                     version := CompilerVersion r;
                                     settings := st |} |})
    /\ (forall name,
          prop_get name srcs =
          prop_get name
            (rev (map (fun entry => (makeFilename (fst entry), contentOf (snd entry)))
                      (own_entries (named sourceJson "sources")))))
    /\ prop_get "libraries" st = None
    /\ (forall key, key <> "libraries" ->
          prop_get key st = prop_get key (own_entries (named sourceJson "settings"))).
Proof.
  intros Hver Hvy Hparse Hlang Hok. apply notVerified_false in Hver.
  rewrite (classify_parsed r sourceJson Hver Hvy Hparse), Hlang.
  rewrite (strict_eq_Solidity_traversable _ Hlang).
  rewrite sourcesOk_result, Hok.
  eexists. eexists. split; [reflexivity|]. split; [|split].
  - intros name. rewrite assign_get.
    fold (renamed (own_entries (named sourceJson "sources"))).
    destruct (prop_get name (rev (renamed (own_entries (named sourceJson "sources")))));
      reflexivity.
  - apply removeLibraries_no_libraries.
  - intros key Hne. apply prop_get_delete_other. exact Hne.
Qed.

(** X6. When the source text parses, the classifier returns a source info
    exactly when the parsed value has a shape it can walk, and throws a
    TypeError otherwise; it never returns null then. *)
Theorem parsed_returns_iff_shape (r : EtherscanResult) (sourceJson : Value) :
  ~ (SourceCode r = "" /\ ABI r = "Contract source code not verified") ->
  prefix "vyper" (CompilerVersion r) = false ->
  JSON_parse (SourceCode r) = Some sourceJson ->
  ((exists info, classify r = Returns (Some info)) <-> shapeOk sourceJson = true)
  /\ ((exists site, classify r = Throws (TypeError site)) <-> shapeOk sourceJson = false).
Proof.
  intros Hver Hvy Hparse. apply notVerified_false in Hver.
  rewrite (classify_parsed r sourceJson Hver Hvy Hparse). unfold shapeOk.
  rewrite !sourcesOk_result.
  destruct (traversable sourceJson); cbn [andb];
    [destruct (strict_eq_string (named sourceJson "language") "Solidity");
     [destruct (sourcesOk (named sourceJson "sources"))|destruct (sourcesOk sourceJson)]|].
  all: split; split; intros H;
    first [discriminate H | reflexivity | eexists; reflexivity
          | destruct H as [x F]; discriminate F].
Qed.

(** X17. A source text that parses to JSON without entries (a number, a
    boolean, the empty object, the empty array, the empty string literal)
    is taken for a multi-source contract with no source at all: the
    classifier returns an empty sources object with the settings of the
    flat fields, and does not fall back to the single-file case. *)
Theorem entryless_json_has_no_sources (r : EtherscanResult) (sourceJson : Value) :
  ~ (SourceCode r = "" /\ ABI r = "Contract source code not verified") ->
  prefix "vyper" (CompilerVersion r) = false ->
  JSON_parse (SourceCode r) = Some sourceJson ->
  traversable sourceJson = true ->
  own_entries sourceJson = [] ->
  classify r =
    Returns (Some {| sources := [];
                     options := {| language := "Solidity";
                                   version := CompilerVersion r;
                                   settings := extractSettings r |} |}).
Proof.
  intros Hver Hvy Hparse Ht Hempty. apply notVerified_false in Hver.
  rewrite (classify_parsed r sourceJson Hver Hvy Hparse), Ht.
  assert (strict_eq_string (named sourceJson "language") "Solidity" = false) as ->.
  { destruct sourceJson; try reflexivity. cbn in Hempty. subst props. reflexivity. }
  rewrite sourcesOk_result. unfold sourcesOk. rewrite Ht, Hempty. reflexivity.
Qed.
End CaseFacts.

Section SettingsAndNull.
Context {host : Host} {common : Common}.
Local Abbreviation Value := (JsValue Num).

(** The classifier on a source text that parses: it returns or throws
    according to the shape of the parsed value. *)
Lemma classify_by_shape (r : EtherscanResult) (sourceJson : Value) :
  notVerified r = false ->
  prefix "vyper" (CompilerVersion r) = false ->
  JSON_parse (SourceCode r) = Some sourceJson ->
  (shapeOk sourceJson = true /\ exists info, classify r = Returns (Some info))
  \/ (shapeOk sourceJson = false /\ exists site, classify r = Throws (TypeError site)).
Proof.
  intros Hver Hvy Hparse.
  rewrite (classify_parsed r sourceJson Hver Hvy Hparse).
  unfold shapeOk. rewrite !sourcesOk_result.
  destruct (traversable sourceJson); cbn [andb];
    [destruct (strict_eq_string (named sourceJson "language") "Solidity");
     [destruct (sourcesOk (named sourceJson "sources"))|destruct (sourcesOk sourceJson)]|].
  all: first [left; split; [reflexivity|eexists; reflexivity]
             |right; split; [reflexivity|eexists; reflexivity]].
Qed.

(** C3. Whatever the record and whichever case it falls in, the settings of
    a returned source info have no [libraries] key.  In the full-JSON case
    the classifier does return the parsed settings copied with exactly that
    key deleted, every other key (the optimizer among them) kept; in the
    single-file and multi-source cases the settings are the ones built from
    the flat fields, which never have the key and do not depend on the
    record's library field; in the Vyper case they are empty. *)
Theorem settings_never_carry_libraries (r : EtherscanResult) :
  (forall info, classify r = Returns (Some info) ->
     prop_get "libraries" (settings (options info)) = None)
  /\ prop_get "libraries" (extractSettings r) = None
  /\ (forall jsonSettings,
        prop_get "libraries" (removeLibraries jsonSettings) = None
        /\ forall key, key <> "libraries" ->
             prop_get key (removeLibraries jsonSettings) = prop_get key (spread jsonSettings))
  /\ (forall sourceJson,
        ~ (SourceCode r = "" /\ ABI r = "Contract source code not verified") ->
        prefix "vyper" (CompilerVersion r) = false ->
        JSON_parse (SourceCode r) = Some sourceJson ->
        strict_eq_string (named sourceJson "language") "Solidity" = true ->
        sourcesOk (named sourceJson "sources") = true ->
        exists srcs,
          classify r =
            Returns (Some {| sources := srcs;
                             options :=
                               {| language := "Solidity";
                                  version := CompilerVersion r;
                                  settings :=
                                    prop_delete "libraries"
                                                (own_entries (named sourceJson "settings")) |} |})
          /\ forall key, key <> "libraries" ->
               prop_get key (prop_delete "libraries"
                                         (own_entries (named sourceJson "settings")))
               = prop_get key (own_entries (named sourceJson "settings")))
  /\ (forall sourceJson info,
        JSON_parse (SourceCode r) = Some sourceJson ->
        prefix "vyper" (CompilerVersion r) = false ->
        classify r = Returns (Some info) ->
        settings (options info) =
          if strict_eq_string (named sourceJson "language") "Solidity"
          then prop_delete "libraries" (own_entries (named sourceJson "settings"))
          else extractSettings r)
  /\ (forall info,
        JSON_parse (SourceCode r) = None ->
        prefix "vyper" (CompilerVersion r) = false ->
        classify r = Returns (Some info) ->
        settings (options info) = extractSettings r)
  /\ (forall info,
        prefix "vyper" (CompilerVersion r) = true ->
        classify r = Returns (Some info) ->
        settings (options info) = [])
  /\ (forall library,
        extractSettings
          {| SourceCode := SourceCode r; ABI := ABI r; ContractName := ContractName r;
             CompilerVersion := CompilerVersion r;
             OptimizationUsed := OptimizationUsed r; Runs := Runs r;
             ConstructorArguments := ConstructorArguments r;
             EVMVersion := EVMVersion r; Library := library;
             LicenseType := LicenseType r; Proxy := Proxy r;
             Implementation := Implementation r; SwarmSource := SwarmSource r |}
        = extractSettings r).
Proof.
  assert (forall sourceJson info,
             JSON_parse (SourceCode r) = Some sourceJson ->
             prefix "vyper" (CompilerVersion r) = false ->
             classify r = Returns (Some info) ->
             settings (options info) =
               if strict_eq_string (named sourceJson "language") "Solidity"
               then prop_delete "libraries" (own_entries (named sourceJson "settings"))
               else extractSettings r) as Parsed.
  { intros sourceJson info Hparse Hvy.
    destruct (notVerified r) eqn:Hver.
    { rewrite classify_cases, Hver. discriminate. }
    rewrite (classify_parsed r sourceJson Hver Hvy Hparse).
    destruct (traversable sourceJson); [|discriminate].
    destruct (strict_eq_string (named sourceJson "language") "Solidity").
    - destruct (eval (processSources (named sourceJson "sources"))); [|discriminate].
      intros H. inversion H. reflexivity.
    - destruct (eval (processSources sourceJson)); [|discriminate].
      intros H. inversion H. reflexivity. }
  assert (forall info,
             JSON_parse (SourceCode r) = None ->
             prefix "vyper" (CompilerVersion r) = false ->
             classify r = Returns (Some info) ->
             settings (options info) = extractSettings r) as Plain.
  { intros info Hparse Hvy. rewrite classify_cases, Hvy, Hparse.
    destruct (notVerified r); [discriminate|]. intros H. inversion H. reflexivity. }
  assert (forall info,
             prefix "vyper" (CompilerVersion r) = true ->
             classify r = Returns (Some info) ->
             settings (options info) = []) as Vyper.
  { intros info Hvy. rewrite classify_cases, Hvy.
    destruct (notVerified r); [discriminate|]. intros H. inversion H. reflexivity. }
  split; [|split; [|split; [|split; [|split; [|split; [|split]]]]]].
  - intros info H.
    destruct (prefix "vyper" (CompilerVersion r)) eqn:Hvy.
    { rewrite (Vyper info eq_refl H). reflexivity. }
    destruct (JSON_parse (SourceCode r)) as [sourceJson|] eqn:Hparse.
    + rewrite (Parsed sourceJson info eq_refl eq_refl H).
      destruct (strict_eq_string (named sourceJson "language") "Solidity").
      * apply prop_get_delete_same.
      * apply extractSettings_no_libraries.
    + rewrite (Plain info eq_refl eq_refl H). apply extractSettings_no_libraries.
  - apply extractSettings_no_libraries.
  - intros js. split; [apply removeLibraries_no_libraries|].
    intros key Hne. apply prop_get_delete_other. exact Hne.
  - intros sourceJson Hver Hvy Hparse Hlang Hok. apply notVerified_false in Hver.
    rewrite (classify_parsed r sourceJson Hver Hvy Hparse), Hlang.
    rewrite (strict_eq_Solidity_traversable _ Hlang), sourcesOk_result, Hok.
    eexists. split; [reflexivity|].
    intros key Hne. apply prop_get_delete_other. exact Hne.
  - exact Parsed.
  - exact Plain.
  - exact Vyper.
  - intros library. reflexivity.
Qed.

(** C2, amended.  The classifier returns null exactly on the unverified
    record.  On any other record it never returns null: it returns a source
    info, except that it throws a TypeError when, and only when, the source
    text parses as JSON of a shape it cannot walk, that is JSON that is
    null, or whose sources (the value itself, or its [sources] property
    when it is tagged language Solidity) or one of their entries is null or
    absent. *)
Theorem null_exactly_when_unverified (r : EtherscanResult) :
  (classify r = Returns None <->
     SourceCode r = "" /\ ABI r = "Contract source code not verified")
  /\ (~ (SourceCode r = "" /\ ABI r = "Contract source code not verified") ->
      ((exists info, classify r = Returns (Some info))
       \/ (exists site, classify r = Throws (TypeError site)))
      /\ ((exists info, classify r = Returns (Some info)) <->
            prefix "vyper" (CompilerVersion r) = true
            \/ JSON_parse (SourceCode r) = None
            \/ exists sourceJson,
                JSON_parse (SourceCode r) = Some sourceJson /\ shapeOk sourceJson = true)
      /\ ((exists site, classify r = Throws (TypeError site)) <->
            prefix "vyper" (CompilerVersion r) = false
            /\ exists sourceJson,
                JSON_parse (SourceCode r) = Some sourceJson /\ shapeOk sourceJson = false)).
Proof.
  split.
  - rewrite classify_cases, <- notVerified_true.
    destruct (notVerified r); [split; reflexivity|].
    destruct (prefix "vyper" (CompilerVersion r)); [split; discriminate|].
    destruct (JSON_parse (SourceCode r)) as [sourceJson|]; [|split; discriminate].
    destruct (eval (isFullJson sourceJson)) as [[|]|e]; [| |split; discriminate].
    + destruct (eval (processJsonResult r sourceJson)); split; discriminate.
    + destruct (eval (processMultiResult r sourceJson)); split; discriminate.
  - intros Hver. apply notVerified_false in Hver.
    destruct (prefix "vyper" (CompilerVersion r)) eqn:Hvy.
    { assert (classify r = Returns (Some vyperInfo)) as E
          by (rewrite classify_cases, Hver, Hvy; reflexivity).
      rewrite E. split; [left; eexists; reflexivity|]. split.
      - split; [intros _; left; reflexivity|intros _; eexists; reflexivity].
      - split; [intros [site F]; discriminate F|intros [F _]; discriminate F]. }
    destruct (JSON_parse (SourceCode r)) as [sourceJson|] eqn:Hparse.
    2:{ assert (classify r = Returns (Some (processSingleResult r))) as E
            by (rewrite classify_cases, Hver, Hvy, Hparse; reflexivity).
        rewrite E. split; [left; eexists; reflexivity|]. split.
        - split; [intros _; right; left; reflexivity|intros _; eexists; reflexivity].
        - split; [intros [site F]; discriminate F|].
          intros [_ [sj [F _]]]. discriminate F. }
    destruct (classify_by_shape r sourceJson Hver Hvy Hparse)
      as [[Hs [info E]]|[Hs [site E]]]; rewrite E.
    + split; [left; eexists; reflexivity|]. split.
      * split; [|intros _; eexists; reflexivity].
        intros _. right. right. exists sourceJson. split; [reflexivity|exact Hs].
      * split; [intros [site F]; discriminate F|].
        intros [_ [sj [F G]]]. inversion F; subst sj. congruence.
    + split; [right; eexists; reflexivity|]. split.
      * split; [intros [info F]; discriminate F|].
        intros [F|[F|[sj [F G]]]]; [discriminate F|discriminate F|].
        inversion F; subst sj. congruence.
      * split; [|intros _; eexists; reflexivity].
        intros _. split; [reflexivity|]. exists sourceJson. split; [reflexivity|exact Hs].
Qed.
End SettingsAndNull.

Section RecordFacts.
Context {host : Host} {common : Common}.
Local Abbreviation Value := (JsValue Num).
Local Abbreviation Sync := (Prog (hostE Num)).

(** X7. The classification reads seven fields of the record and no other:
    records that agree on source text, ABI, contract name, compiler version,
    optimizer flag, runs and EVM version are classified alike, whatever
    their constructor arguments, library, licence, proxy, implementation
    and swarm fields; and the ABI itself matters only while the source text
    is empty. *)
Theorem ignored_fields (r1 r2 : EtherscanResult) :
  SourceCode r1 = SourceCode r2 ->
  ContractName r1 = ContractName r2 ->
  CompilerVersion r1 = CompilerVersion r2 ->
  OptimizationUsed r1 = OptimizationUsed r2 ->
  Runs r1 = Runs r2 ->
  EVMVersion r1 = EVMVersion r2 ->
  ABI r1 = ABI r2 \/ SourceCode r1 <> "" ->
  classify r1 = classify r2.
Proof.
  destruct r1 as [s1 a1 n1 c1 o1 u1 g1 e1 l1 i1 p1 m1 w1].
  destruct r2 as [s2 a2 n2 c2 o2 u2 g2 e2 l2 i2 p2 m2 w2].
  cbn [SourceCode ABI ContractName CompilerVersion OptimizationUsed Runs EVMVersion].
  intros <- <- <- <- <- <- Habi.
  destruct Habi as [<-|Hsrc]; [reflexivity|].
  apply String.eqb_neq in Hsrc.
  unfold classify, processResult, notVerified.
  cbn [SourceCode ABI CompilerVersion]. rewrite Hsrc. reflexivity.
Qed.

(** X8. The language tag follows the compiler version and nothing else: a
    returned source info is the bare Vyper one when the compiler version
    begins with "vyper", and otherwise is tagged Solidity and carries the
    record's compiler version, in each of the three remaining cases. *)
Theorem language_follows_compiler (r : EtherscanResult) (info : SourceInfo) :
  classify r = Returns (Some info) ->
  (prefix "vyper" (CompilerVersion r) = true ->
     language (options info) = "Vyper" /\ version (options info) = ""
     /\ sources info = [] /\ settings (options info) = [])
  /\ (prefix "vyper" (CompilerVersion r) = false ->
     language (options info) = "Solidity"
     /\ version (options info) = CompilerVersion r).
Proof.
  rewrite classify_cases.
  destruct (notVerified r); [discriminate|].
  destruct (prefix "vyper" (CompilerVersion r)).
  { intros H. inversion H. split; [intros _; repeat split|discriminate]. }
  intros H. split; [discriminate|]. intros _. revert H.
  destruct (JSON_parse (SourceCode r)) as [sourceJson|].
  2:{ intros H. inversion H. split; reflexivity. }
  destruct (eval (isFullJson sourceJson)) as [[|]|e]; [| |discriminate].
  - unfold processJsonResult. rewrite eval_bind.
    destruct (eval (get_named _ sourceJson "sources")); [|discriminate].
    rewrite eval_bind. destruct (eval (processSources a)); [|discriminate].
    rewrite eval_bind. destruct (eval (get_named _ sourceJson "settings")); [|discriminate].
    intros H. inversion H. split; reflexivity.
  - unfold processMultiResult. rewrite eval_bind.
    destruct (eval (processSources sourceJson)); [|discriminate].
    intros H. inversion H. split; reflexivity.
Qed.

Lemma parsedTexts_bind {A B} (p : Sync A) (f : A -> Sync B) :
  parsedTexts (bind p f) =
  parsedTexts p ++ match eval p with
                   | Returns a => parsedTexts (f a)
                   | Throws _ => []
                   end.
Proof.
  induction p as [a|e|X ev k IH]; cbn [bind parsedTexts eval app]; try reflexivity.
  destruct ev. cbn [app]. rewrite IH. reflexivity.
Qed.

Lemma parsedTexts_get_named (site : string) (v : Value) (key : string) :
  parsedTexts (get_named site v key) = [].
Proof. destruct v; reflexivity. Qed.

Lemma parsedTexts_mapP {A B} (f : A -> Sync B) (xs : list A) :
  (forall x, parsedTexts (f x) = []) -> parsedTexts (mapP f xs) = [].
Proof.
  intros Hf. induction xs as [|x rest IH]; [reflexivity|].
  cbn [mapP]. rewrite parsedTexts_bind, Hf.
  destruct (eval (f x)); [|reflexivity].
  rewrite parsedTexts_bind, IH. destruct (eval (mapP f rest)); reflexivity.
Qed.

Lemma parsedTexts_processSources (v : Value) : parsedTexts (processSources v) = [].
Proof.
  unfold processSources. rewrite parsedTexts_bind.
  assert (parsedTexts (Object_entries "Object.entries(sources)" v) = []) as ->
      by (destruct v; reflexivity).
  destruct (eval (Object_entries _ v)) as [entries|]; [|reflexivity].
  rewrite parsedTexts_bind, parsedTexts_mapP.
  - destruct (eval (mapP _ entries)); reflexivity.
  - intros [path file]. rewrite parsedTexts_bind, parsedTexts_get_named.
    destruct (eval (get_named _ file "content")); reflexivity.
Qed.

(** X9. The classifier calls JSON.parse at most once, and only on the
    source text: never for the unverified record or a Vyper one, once on
    [SourceCode] otherwise, and on no other field of the record. *)
Theorem parses_source_once (result : option EtherscanResult) :
  parsedTexts (processResult result) =
  match result with
  | Some r =>
      if notVerified r || prefix "vyper" (CompilerVersion r) then [] else [SourceCode r]
  | None => []
  end.
Proof.
  destruct result as [r|]; [|reflexivity].
  unfold processResult.
  destruct (notVerified r); [reflexivity|].
  destruct (prefix "vyper" (CompilerVersion r)); [reflexivity|].
  cbn [orb parsedTexts]. f_equal.
  destruct (JSON_parse (SourceCode r)) as [sourceJson|]; [|reflexivity].
  rewrite parsedTexts_bind. unfold isFullJson at 1.
  rewrite parsedTexts_bind, parsedTexts_get_named.
  destruct (eval (get_named _ sourceJson "language")) as [lang|] eqn:G.
  2:{ unfold isFullJson. rewrite eval_bind, G. reflexivity. }
  cbn [parsedTexts app]. unfold isFullJson. rewrite eval_bind, G. cbn [eval].
  destruct (strict_eq_string lang "Solidity").
  - rewrite parsedTexts_bind. unfold processJsonResult at 1.
    rewrite parsedTexts_bind, parsedTexts_get_named.
    destruct (eval (get_named _ sourceJson "sources")) as [srcs|] eqn:G1.
    2:{ unfold processJsonResult. rewrite eval_bind, G1. reflexivity. }
    rewrite parsedTexts_bind, parsedTexts_processSources.
    destruct (eval (processSources srcs)) as [out|] eqn:G2.
    2:{ unfold processJsonResult. rewrite eval_bind, G1, eval_bind, G2. reflexivity. }
    rewrite parsedTexts_bind, parsedTexts_get_named.
    destruct (eval (get_named _ sourceJson "settings")) as [st|] eqn:G3.
    2:{ unfold processJsonResult.
        rewrite eval_bind, G1, eval_bind, G2, eval_bind, G3. reflexivity. }
    cbn [parsedTexts app]. destruct (eval (processJsonResult r sourceJson)); reflexivity.
  - rewrite parsedTexts_bind. unfold processMultiResult at 1.
    rewrite parsedTexts_bind, parsedTexts_processSources.
    destruct (eval (processSources sourceJson)) as [out|] eqn:G2.
    2:{ unfold processMultiResult. rewrite eval_bind, G2. reflexivity. }
    cbn [parsedTexts app]. destruct (eval (processMultiResult r sourceJson)); reflexivity.
Qed.
End RecordFacts.

Section FetchFacts.
Context {host : Host} {common : Common}.
Local Abbreviation Async := (Prog (fetchE Num)).

(** The requests that the loop adds to the log. *)
Lemma attemptLoop_log (env : Environment) (remaining : nat) (lastError : Thrown)
    (this : Fetcher) (address : string) (w : World) :
  exists news,
    dispatched (fst (exec env (attemptLoop remaining lastError this address) w))
      = news ++ dispatched w
    /\ length news <= remaining
    /\ (remaining <> 0 -> news <> [])
    /\ Forall (fun d => snd d = requestFor this address) news.
Proof.
  revert lastError w. induction remaining as [|remaining IH]; intros lastError w.
  - exists []. split; [reflexivity|]. split; [cbn; lia|]. split; [congruence|constructor].
  - rewrite exec_attempt.
    assert (forall last,
               exists news,
                 dispatched (fst (exec env (attemptLoop remaining last this address)
                                       (afterAttempt env this address w)))
                   = news ++ dispatched w
                 /\ length news <= S remaining /\ news <> []
                 /\ Forall (fun d => snd d = requestFor this address) news) as Again.
    { intros last.
      destruct (IH last (afterAttempt env this address w)) as [news [E [L [_ F]]]].
      exists (news ++ [(wakeTime env w, requestFor this address)]).
      rewrite E. cbn [afterAttempt dispatched]. rewrite <- app_assoc.
      split; [reflexivity|]. split; [rewrite length_app; cbn; lia|].
      split; [intros Hnil; apply app_eq_nil in Hnil; destruct Hnil; discriminate|].
      apply Forall_app. split; [exact F|repeat constructor]. }
    destruct (outcome env (length (dispatched w))) as [[s|f]|e].
    + exists [(wakeTime env w, requestFor this address)].
      split; [reflexivity|]. split; [cbn; lia|]. split; [discriminate|].
      repeat constructor.
    + destruct (Again (Error (failure_result f))) as [news [E [L [N F]]]].
      exists news. split; [exact E|]. split; [exact L|]. split; [intros _; exact N|exact F].
    + destruct (Again e) as [news [E [L [N F]]]].
      exists news. split; [exact E|]. split; [exact L|]. split; [intros _; exact N|exact F].
Qed.

Lemma fetch_log (env : Environment) (this : Fetcher) (address : string) (w : World) :
  exists news,
    dispatched (fst (exec env (fetchSourcesForAddress this address) w))
      = news ++ dispatched w
    /\ 1 <= length news <= 2
    /\ Forall (fun d => snd d = requestFor this address) news.
Proof.
  destruct (attemptLoop_log env allowedAttempts ThrownUndefined this address w)
    as [news [E [L [N F]]]].
  exists news. unfold fetchSourcesForAddress, getSuccessfulResponse.
  rewrite exec_bind.
  destruct (exec env (attemptLoop allowedAttempts ThrownUndefined this address) w)
    as [w1 [response|e]]; [rewrite exec_lift|]; cbn [fst] in *.
  all: split; [exact E|]; split; [|exact F].
  all: unfold allowedAttempts in *; destruct news; [exfalso; apply N; congruence|cbn in *; lia].
Qed.

(** X10. What the requester throws, [fetchSourcesForAddress] throws
    unchanged, without classifying anything; and a response that arrived is
    never asked for again: when the classifier throws on it (the result
    array is empty) the fetch fails after its single request. *)
Theorem fetch_failures (this : Fetcher) (address : string) (env : Environment) (w : World) :
  (forall e final,
      exec env (getSuccessfulResponse this address) w = (final, Throws e) ->
      exec env (fetchSourcesForAddress this address) w = (final, Throws e))
  /\ (forall response,
        outcome env (length (dispatched w)) = Fulfilled (Success response) ->
        success_result response = [] ->
        snd (exec env (fetchSourcesForAddress this address) w)
          = Throws (TypeError "result.SourceCode")
        /\ length (dispatched (fst (exec env (fetchSourcesForAddress this address) w)))
           = S (length (dispatched w))).
Proof.
  split.
  - intros e final H. unfold fetchSourcesForAddress. rewrite exec_bind, H. reflexivity.
  - intros response Ho Hres. unfold fetchSourcesForAddress, getSuccessfulResponse, allowedAttempts.
    rewrite exec_bind, exec_attempt, Ho, exec_lift, Hres. split; reflexivity.
Qed.

(** X11. The timer is reset when the request leaves, not when its answer
    comes back: after a failed first attempt that was dispatched at [t1],
    the retry is dispatched when both the failure has arrived and the
    timeout has passed since [t1] (plus whatever the timer is late), so a
    failure that took longer than the timeout is retried without further
    waiting. *)
Theorem retry_time (this : Fetcher) (address : string) (env : Environment) (w : World)
    (e1 : Thrown) :
  attemptFails (outcome env (length (dispatched w))) e1 ->
  exists t1 t2,
    map fst (dispatched (fst (exec env (getSuccessfulResponse this address) w)))
      = t2 :: t1 :: map fst (dispatched w)
    /\ t1 = (N.max (now w) (deadline (ready w)) + lag env (length (dispatched w)))%N
    /\ t2 = (N.max (t1 + latency env (length (dispatched w))) (t1 + timeout this)
             + lag env (S (length (dispatched w))))%N.
Proof.
  intros Hfail. exists (wakeTime env w), (wakeTime env (afterAttempt env this address w)).
  split; [|split; reflexivity].
  unfold getSuccessfulResponse, allowedAttempts. rewrite exec_attempt.
  inversion Hfail as [e Ho|f Ho]; rewrite exec_attempt;
    destruct (outcome env (length (dispatched (afterAttempt env this address w))))
      as [[s'|f']|e']; reflexivity.
Qed.

(** X12. A lone caller's log: after any number of fetches made one after
    the other on a new instance, each address has cost one or two requests,
    every request in the log is the one built for an address of the list,
    and the dispatches are the timeout apart. *)
Theorem lone_caller_log (env : Environment) (this : Fetcher) (addresses : list string)
    (start : Time) :
  let final := fetchAll env this addresses (freshWorld start) in
  length addresses <= length (dispatched final) <= 2 * length addresses
  /\ Forall (fun d => exists address,
                        In address addresses
                        /\ qs_address (snd d) = address
                        /\ qs_module (snd d) = "contract"
                        /\ qs_action (snd d) = "getsourcecode"
                        /\ qs_apikey (snd d) = apiKey this)
            (dispatched final)
  /\ spaced (timeout this) (dispatchTimes final) = true.
Proof.
  cbv zeta.
  assert (forall w,
             gate_ok (timeout this) w ->
             gate_ok (timeout this) (fetchAll env this addresses w)
             /\ exists news,
                 dispatched (fetchAll env this addresses w) = news ++ dispatched w
                 /\ length addresses <= length news <= 2 * length addresses
                 /\ Forall (fun d => exists address,
                                       In address addresses
                                       /\ snd d = requestFor this address) news) as H.
  { induction addresses as [|a rest IH]; intros w Hok.
    - split; [exact Hok|]. exists []. split; [reflexivity|]. split; [cbn; lia|constructor].
    - cbn [fetchAll].
      pose proof (gate_ok_fetch env this a w Hok) as Hok1.
      destruct (fetch_log env this a w) as [n1 [E1 [L1 F1]]].
      destruct (IH _ Hok1) as [Hok2 [n2 [E2 [L2 F2]]]].
      split; [exact Hok2|]. exists (n2 ++ n1).
      rewrite E2, E1, app_assoc. split; [reflexivity|].
      split; [rewrite length_app; cbn [length]; lia|].
      apply Forall_app. split.
      + eapply Forall_impl; [|exact F2].
        intros d [address [Hin Hd]]. exists address. split; [right; exact Hin|exact Hd].
      + eapply Forall_impl; [|exact F1].
        intros d Hd. exists a. split; [left; reflexivity|exact Hd]. }
  destruct (H (freshWorld start) (gate_ok_fresh _ _)) as [[Hsp _] [news [E [L F]]]].
  cbn [freshWorld dispatched] in E. rewrite app_nil_r in E.
  split; [rewrite E; exact L|]. split; [rewrite E|exact Hsp].
  eapply Forall_impl; [|exact F].
  intros d [address [Hin Hd]]. exists address. rewrite Hd.
  split; [exact Hin|]. split; [reflexivity|]. split; [reflexivity|]. split; reflexivity.
Qed.
End FetchFacts.

Section EventLoopFacts.
Context {host : Host} {common : Common}.
Local Abbreviation Async := (Prog (fetchE Num)).

Lemma issuesAtMost_mono {A} (n m : nat) (p : Async A) :
  issuesAtMost n p -> n <= m -> issuesAtMost m p.
Proof.
  intros H. revert m. induction H as [n a|n e|n opts k H IH|n X ev k Hev H IH]; intros m Hle.
  - constructor.
  - constructor.
  - destruct m as [|m]; [lia|]. constructor. apply IH. lia.
  - apply issues_other; [exact Hev|]. intros x. apply IH. exact Hle.
Qed.

Lemma issuesAtMost_bind {A B} (n m : nat) (p : Async A) (f : A -> Async B) :
  issuesAtMost n p -> (forall a, issuesAtMost m (f a)) -> issuesAtMost (n + m) (bind p f).
Proof.
  intros H Hf. induction H as [n a|n e|n opts k H IH|n X ev k Hev H IH]; cbn [bind].
  - apply issuesAtMost_mono with (n := m); [apply Hf|lia].
  - constructor.
  - cbn [Nat.add]. constructor. exact IH.
  - apply issues_other; [exact Hev|]. exact IH.
Qed.

Lemma issuesAtMost_lift {A} (p : Prog (hostE Num) A) : issuesAtMost 0 (lift p).
Proof.
  induction p as [a|e|X ev k IH]; cbn [lift]; try constructor.
  - reflexivity.
  - exact IH.
Qed.

Lemma issuesAtMost_attemptLoop (remaining : nat) (lastError : Thrown)
    (this : Fetcher) (address : string) :
  issuesAtMost remaining (attemptLoop remaining lastError this address).
Proof.
  revert lastError. induction remaining as [|remaining IH]; intros lastError.
  - constructor.
  - cbn. apply issues_other; [reflexivity|]. intros _.
    apply issues_request.
    apply issues_other; [reflexivity|]. intros _.
    apply issues_other; [reflexivity|]. intros [[s|f]|e]; cbn.
    + constructor.
    + apply IH.
    + apply IH.
Qed.

Lemma issuesAtMost_fetch (this : Fetcher) (address : string) :
  issuesAtMost 2 (fetchSourcesForAddress this address).
Proof.
  unfold fetchSourcesForAddress, getSuccessfulResponse.
  apply (issuesAtMost_bind 2 0).
  - apply issuesAtMost_attemptLoop.
  - intros response. apply issuesAtMost_lift.
Qed.

(** A turn spends what it dispatches out of the program's budget. *)
Lemma turn_budget (n : nat) (p : Async (option SourceInfo)) (w : World) :
  issuesAtMost n p ->
  exists m,
    taskIssuesAtMost m (snd (turn p w))
    /\ length (dispatched (fst (turn p w))) + m <= length (dispatched w) + n.
Proof.
  intros H. revert w.
  induction H as [n a|n e|n opts k H IH|n X ev k Hev H IH]; intros w.
  - exists 0. split; [exact I|cbn; lia].
  - exists 0. split; [exact I|cbn; lia].
  - cbn [turn inTurn]. destruct (IH (issue opts w)) as [m [Ht Hle]].
    exists m. split; [exact Ht|]. cbn [issue dispatched length] in Hle. lia.
  - destruct ev as [Y h| |ms|opts|]; cbn [turn inTurn].
    + apply IH.
    + exists n. split; [split; [reflexivity|exact H]|cbn; lia].
    + destruct (IH tt (set_ready ms w)) as [m [Ht Hle]].
      exists m. split; [exact Ht|exact Hle].
    + discriminate Hev.
    + exists n. split; [split; [reflexivity|exact H]|cbn; lia].
Qed.

Lemma resumeOnTimer_budget (m : nat) (t t' : Task (option SourceInfo)) (w w' : World) :
  taskIssuesAtMost m t ->
  resumeOnTimer t w = Some (w', t') ->
  exists m', taskIssuesAtMost m' t'
             /\ length (dispatched w') + m' <= length (dispatched w) + m.
Proof.
  destruct t as [c|X ev held k]; [discriminate|].
  intros [_ Hk]. destruct ev as [Y h| |ms|opts|]; cbn [resumeOnTimer]; try discriminate.
  destruct (resolved held (now w)); [|discriminate].
  pose proof (turn_budget m (k tt) w (Hk tt)) as [m' [Ht Hle]].
  intros E. inversion E as [E']. rewrite E' in Ht, Hle.
  exists m'. split; [exact Ht|exact Hle].
Qed.

Lemma resumeOnResponse_budget (m : nat) (t t' : Task (option SourceInfo))
    (o : TransportOutcome) (w w' : World) :
  taskIssuesAtMost m t ->
  resumeOnResponse t o w = Some (w', t') ->
  exists m', taskIssuesAtMost m' t'
             /\ length (dispatched w') + m' <= length (dispatched w) + m.
Proof.
  destruct t as [c|X ev held k]; [discriminate|].
  intros [_ Hk]. destruct ev as [Y h| |ms|opts|]; cbn [resumeOnResponse]; try discriminate.
  pose proof (turn_budget m (k o) w (Hk o)) as [m' [Ht Hle]].
  intros E. inversion E as [E']. rewrite E' in Ht, Hle.
  exists m'. split; [exact Ht|exact Hle].
Qed.

Lemma tasks_replace (N : nat) (tasks : list (Task (option SourceInfo))) (i : nat)
    (t t' : Task (option SourceInfo)) (d d' : nat) :
  tasksIssueAtMost N tasks ->
  nth_error tasks i = Some t ->
  (forall m, taskIssuesAtMost m t ->
             exists m', taskIssuesAtMost m' t' /\ d' + m' <= d + m) ->
  exists N', tasksIssueAtMost N' (replace_nth i t' tasks) /\ d' + N' <= d + N.
Proof.
  intros H. revert i. induction H as [|m n t0 ts Ht0 Hts IH]; intros i Hnth Hstep.
  - destruct i; discriminate Hnth.
  - destruct i as [|i]; cbn [nth_error replace_nth] in *.
    + inversion Hnth; subst t0. destruct (Hstep m Ht0) as [m' [Ht' Hle]].
      exists (m' + n). split; [constructor; assumption|lia].
    + destruct (IH i Hnth Hstep) as [N' [HN' Hle]].
      exists (m + N'). split; [constructor; assumption|lia].
Qed.

Lemma tasks_add (N m : nat) (tasks : list (Task (option SourceInfo)))
    (t : Task (option SourceInfo)) :
  tasksIssueAtMost N tasks -> taskIssuesAtMost m t -> tasksIssueAtMost (N + m) (tasks ++ [t]).
Proof.
  intros H Ht. induction H as [|m0 n t0 ts Ht0 Hts IH]; cbn [app].
  - replace (0 + m) with (m + 0) by lia. constructor; [exact Ht|constructor].
  - replace (m0 + n + m) with (m0 + (n + m)) by lia. constructor; assumption.
Qed.

Lemma run_budget (this : Fetcher) (schedule : list Action) (w w' : World)
    (tasks tasks' : list (Task (option SourceInfo))) (N : nat) :
  tasksIssueAtMost N tasks ->
  run this schedule (w, tasks) = Some (w', tasks') ->
  exists N',
    tasksIssueAtMost N' tasks'
    /\ length (dispatched w') + N' <= length (dispatched w) + N + 2 * calls schedule.
Proof.
  revert w tasks N. induction schedule as [|a rest IH]; intros w tasks N HN Hrun.
  - inversion Hrun; subst. exists N. split; [exact HN|cbn; lia].
  - cbn [run] in Hrun.
    assert (forall w1 tasks1 N1,
               tasksIssueAtMost N1 tasks1 ->
               length (dispatched w1) + N1
                 <= length (dispatched w) + N + (if isCall a then 2 else 0) ->
               run this rest (w1, tasks1) = Some (w', tasks') ->
               exists N',
                 tasksIssueAtMost N' tasks'
                 /\ length (dispatched w') + N'
                    <= length (dispatched w) + N + 2 * calls (a :: rest)) as Next.
    { intros w1 tasks1 N1 H1 Hle Hrest.
      destruct (IH _ _ _ H1 Hrest) as [N' [HN' Hle']].
      exists N'. split; [exact HN'|].
      unfold calls in *. cbn [filter]. destruct (isCall a); cbn [length] in *; lia. }
    destruct a as [address|ms|i|i o]; cbn [step isCall] in Hrun, Next.
    + destruct (turn_budget 2 (fetchSourcesForAddress this address) w
                  (issuesAtMost_fetch this address)) as [m [Ht Hle]].
      destruct (turn (fetchSourcesForAddress this address) w) as [w1 t].
      cbn [fst snd] in *.
      apply (Next w1 (tasks ++ [t]) (N + m)); [apply tasks_add; assumption|lia|exact Hrun].
    + apply (Next (at_time (now w + ms)%N w) tasks N); [exact HN|cbn; lia|exact Hrun].
    + destruct (nth_error tasks i) as [t|] eqn:Hnth; [|discriminate].
      destruct (resumeOnTimer t w) as [[w1 t1]|] eqn:Hres; [|discriminate].
      destruct (tasks_replace N tasks i t t1 (length (dispatched w)) (length (dispatched w1))
                  HN Hnth) as [N1 [HN1 Hle]].
      { intros m Hm. exact (resumeOnTimer_budget m t t1 w w1 Hm Hres). }
      apply (Next w1 (replace_nth i t1 tasks) N1); [exact HN1|lia|exact Hrun].
    + destruct (nth_error tasks i) as [t|] eqn:Hnth; [|discriminate].
      destruct (resumeOnResponse t o w) as [[w1 t1]|] eqn:Hres; [|discriminate].
      destruct (tasks_replace N tasks i t t1 (length (dispatched w)) (length (dispatched w1))
                  HN Hnth) as [N1 [HN1 Hle]].
      { intros m Hm. exact (resumeOnResponse_budget m t t1 o w w1 Hm Hres). }
      apply (Next w1 (replace_nth i t1 tasks) N1); [exact HN1|lia|exact Hrun].
Qed.

(** X13. However the event loop interleaves the callers, the timers and
    the responses, an instance never dispatches more than two requests per
    call of [fetchSourcesForAddress]. *)
Theorem at_most_two_requests_per_call (this : Fetcher) (schedule : list Action)
    (start : Time) (final : World) (tasks : list (Task (option SourceInfo))) :
  run this schedule (freshWorld start, []) = Some (final, tasks) ->
  length (dispatched final) <= 2 * calls schedule.
Proof.
  intros Hrun.
  destruct (run_budget this schedule _ _ _ _ 0 tasks_none Hrun) as [N' [_ Hle]].
  cbn [freshWorld dispatched length] in Hle. lia.
Qed.

Lemma constructor_apiKey (id : NetworkId) : apiKey (constructor id) = "".
Proof.
  unfold constructor. destruct (networksById id) as [name|]; [|reflexivity].
  destruct (negb (includes supportedNetworks name)); reflexivity.
Qed.

(** X14. A fetch on an instance built for a supported network sends its
    one or two requests to https://api.etherscan.io/api for mainnet and to
    https://api-NAME.etherscan.io/api for the other four, asking module
    contract, action getsourcecode, for the address given, with an empty
    API key. *)
Theorem requests_on_supported_network (id : NetworkId) (name address : string)
    (env : Environment) (w : World) :
  networksById id = Some name ->
  In name ["mainnet"; "ropsten"; "kovan"; "rinkeby"; "goerli"] ->
  exists news,
    dispatched (fst (exec env (fetchSourcesForAddress (constructor id) address) w))
      = news ++ dispatched w
    /\ 1 <= length news <= 2
    /\ Forall (fun d =>
                 snd d = {| uri := if (name =? "mainnet")%string
                                   then "https://api.etherscan.io/api"
                                   else ("https://api-" ++ name ++ ".etherscan.io/api")%string;
                            qs_module := "contract";
                            qs_action := "getsourcecode";
                            qs_address := address;
                            qs_apikey := "";
                            json := true |}) news.
Proof.
  intros Hname Hin.
  destruct (fetch_log env (constructor id) address w) as [news [E [L F]]].
  exists news. split; [exact E|]. split; [exact L|].
  eapply Forall_impl; [|exact F]. intros d ->.
  unfold requestFor. rewrite constructor_apiKey.
  unfold constructor. rewrite Hname.
  rewrite (proj2 (includes_In supportedNetworks name) Hin). cbn [negb suffix template].
  destruct (name =? "mainnet")%string; reflexivity.
Qed.

(** X15. Nothing stops a fetch on an instance whose network is unknown or
    unsupported: the instance reports itself invalid and has no suffix, and
    the fetch still sends its requests, to the host apiundefined. *)
Theorem requests_on_unsupported_network (id : NetworkId) (address : string)
    (env : Environment) (w : World) :
  (forall name,
      networksById id = Some name ->
      ~ In name ["mainnet"; "ropsten"; "kovan"; "rinkeby"; "goerli"]) ->
  isNetworkValid (constructor id) = false
  /\ suffix (constructor id) = None
  /\ exists news,
      dispatched (fst (exec env (fetchSourcesForAddress (constructor id) address) w))
        = news ++ dispatched w
      /\ 1 <= length news <= 2
      /\ Forall (fun d => uri (snd d) = "https://apiundefined.etherscan.io/api"
                          /\ qs_address (snd d) = address) news.
Proof.
  intros Hout.
  assert (suffix (constructor id) = None /\ validNetwork (constructor id) = false) as [Hs Hv].
  { unfold constructor. destruct (networksById id) as [name|]; [|split; reflexivity].
    destruct (includes supportedNetworks name) eqn:E; [|split; reflexivity].
    apply includes_In in E. exfalso. exact (Hout name eq_refl E). }
  split; [exact Hv|]. split; [exact Hs|].
  destruct (fetch_log env (constructor id) address w) as [news [E [L F]]].
  exists news. split; [exact E|]. split; [exact L|].
  eapply Forall_impl; [|exact F]. intros d ->.
  unfold requestFor. cbn [uri qs_address]. rewrite Hs. split; reflexivity.
Qed.
End EventLoopFacts.

(** ** The decoder interface *)

Section CodecFacts.
Variables ContractObject Provider WireDecoder ContractDecoder ContractInstanceDecoder : Type.
Variable same : ContractObject -> ContractObject -> bool.
Hypothesis same_identity : forall a b, same a b = true <-> a = b.

Local Abbreviation decoderE :=
  (Codec.decoderE ContractObject Provider WireDecoder ContractDecoder ContractInstanceDecoder).

(** X16. [forContract] builds exactly one wire decoder, for a project that
    always holds the contract itself: the relevant contracts as they are
    when the contract is among them, the contract put in front of them when
    it is not; from there on it does what [forContractWithDecoder] does with
    that wire decoder.  [forContractInstance] builds the same project. *)
Theorem forContract_project (contract : ContractObject)
    (relevantContracts : list ContractObject) (provider : Provider) :
  exists contracts,
    (Codec.forContract same contract relevantContracts provider
       : Prog decoderE ContractDecoder)
      = (wireDecoder <- Codec.forProject contracts provider ;;
         Codec.forContractWithDecoder contract wireDecoder)
    /\ In contract contracts
    /\ (forall other, In other contracts <-> other = contract \/ In other relevantContracts)
    /\ (In contract relevantContracts -> contracts = relevantContracts)
    /\ (~ In contract relevantContracts -> contracts = contract :: relevantContracts)
    /\ (forall (answer : forall X, decoderE X -> Completion X) (address : option string),
          Codec.projects answer
            (Codec.forContract same contract relevantContracts provider)
            = [contracts]
          /\ Codec.projects answer
               (Codec.forContractInstance same contract relevantContracts provider address)
             = [contracts]).
Proof.
  assert (existsb (fun other => same other contract) relevantContracts = true
          <-> In contract relevantContracts) as Hin.
  { rewrite existsb_exists. split.
    - intros [x [Hx E]]. apply same_identity in E. subst x. exact Hx.
    - intros H. exists contract. split; [exact H|]. apply same_identity. reflexivity. }
  unfold Codec.forContract, Codec.forContractInstance, Codec.forContract.
  destruct (existsb (fun other => same other contract) relevantContracts) eqn:E.
  - clear E. assert (In contract relevantContracts) as E by (apply Hin; reflexivity).
    exists relevantContracts.
    split; [reflexivity|]. split; [exact E|]. split.
    { intros other. split; [auto|]. intros [->|H]; assumption. }
    split; [reflexivity|]. split; [intros H; exfalso; exact (H E)|].
    intros answer address. cbn.
    destruct (answer _ (Codec.New_WireDecoder relevantContracts provider)) as [wire|];
      [|split; reflexivity].
    destruct (answer _ (Codec.New_ContractDecoder contract wire)) as [cd|];
      [|split; reflexivity].
    destruct (answer _ (Codec.Init cd)) as [[]|]; [|split; reflexivity].
    destruct (answer _ (Codec.For_instance cd address)); split; reflexivity.
  - assert (~ In contract relevantContracts) as Hnot.
    { intros H. apply Hin in H. discriminate H. }
    exists (contract :: relevantContracts).
    split; [reflexivity|]. split; [left; reflexivity|]. split.
    { intros other. cbn [In]. split; intros [H|H]; auto. }
    split; [intros H; exfalso; exact (Hnot H)|]. split; [reflexivity|].
    intros answer address. cbn.
    destruct (answer _ (Codec.New_WireDecoder (contract :: relevantContracts) provider))
      as [wire|]; [|split; reflexivity].
    destruct (answer _ (Codec.New_ContractDecoder contract wire)) as [cd|];
      [|split; reflexivity].
    destruct (answer _ (Codec.Init cd)) as [[]|]; [|split; reflexivity].
    destruct (answer _ (Codec.For_instance cd address)); split; reflexivity.
Qed.
End CodecFacts.

(** * Worked examples on the reference host *)

Import Reference.

(** The examples of the specification. *)
Example classify_unverified : classify unverified_record = Returns None.
Proof. reflexivity. Qed.

Example classify_plain :
  classify plain_record =
  Returns (Some {| sources := [("C.sol", JString "contract C {}")];
                   options := {| language := "Solidity"; version := "v0.8.0";
                                 settings := [("optimizer",
                                               JObject [("enabled", JBool true);
                                                        ("runs", JNumber (Integer 200))])] |} |}).
Proof. reflexivity. Qed.

Example classify_multi :
  classify multi_record =
  Returns (Some {| sources := [("a.sol", JString "X"); ("b.sol", JString "Y")];
                   options := {| language := "Solidity"; version := "v0.8.0";
                                 settings := [("optimizer",
                                               JObject [("enabled", JBool false);
                                                        ("runs", JNumber (Integer 200))]);
                                              ("evmVersion", JString "istanbul")] |} |}).
Proof. reflexivity. Qed.

Example classify_json :
  classify json_record =
  Returns (Some {| sources := [("a.sol", JString "X")];
                   options := {| language := "Solidity"; version := "v0.8.0";
                                 settings := [("optimizer",
                                               JObject [("enabled", JBool true);
                                                        ("runs", JNumber (Integer 1))])] |} |}).
Proof. reflexivity. Qed.

Example parse_empty_fails : json_parse "" = None.
Proof. reflexivity. Qed.

Example parse_null : json_parse "null" = Some JNull.
Proof. reflexivity. Qed.

Lemma vyper_precedes_parse_witness :
  ~ (SourceCode vyper_record = "" /\ ABI vyper_record = "Contract source code not verified")
  /\ CompilerVersion vyper_record = ("vyper" ++ ":0.2.8")%string
  /\ processResult (Some vyper_record) =
       Ret (Some {| sources := [];
                    options := {| language := "Vyper"; version := ""; settings := [] |} |})
  /\ classify vyper_record =
       Returns (Some {| sources := [];
                        options := {| language := "Vyper"; version := ""; settings := [] |} |}).
Proof.
  assert (~ (SourceCode vyper_record = ""
             /\ ABI vyper_record = "Contract source code not verified")) as H
      by (intros [E _]; discriminate E).
  split; [exact H|]. split; [reflexivity|].
  exact (vyper_precedes_parse vyper_record ":0.2.8" H eq_refl).
Defined.

(** C2 as stated fails: the record whose source text is the JSON literal
    null is not the unverified one, and the classifier returns nothing for
    it; reading [language] off null throws. *)
Lemma classifier_can_throw :
  ~ (SourceCode null_record = "" /\ ABI null_record = "Contract source code not verified")
  /\ classify null_record = Throws (TypeError "sourceJson.language")
  /\ ~ (exists info, classify null_record = Returns (Some info)).
Proof.
  split; [intros [E _]; discriminate E|].
  split; [reflexivity|].
  intros [info E]. discriminate E.
Qed.

Lemma null_exactly_when_unverified_witness :
  ~ (SourceCode null_record = "" /\ ABI null_record = "Contract source code not verified")
  /\ (prefix "vyper" (CompilerVersion null_record) = false
      /\ exists sourceJson,
          JSON_parse (SourceCode null_record) = Some sourceJson
          /\ shapeOk sourceJson = false)
  /\ (exists site, classify null_record = Throws (TypeError site))
  /\ ~ (SourceCode plain_record = "" /\ ABI plain_record = "Contract source code not verified")
  /\ JSON_parse (SourceCode plain_record) = None
  /\ exists info, classify plain_record = Returns (Some info).
Proof.
  assert (~ (SourceCode null_record = ""
             /\ ABI null_record = "Contract source code not verified")) as H
      by (intros [E _]; discriminate E).
  assert (prefix "vyper" (CompilerVersion null_record) = false
          /\ exists sourceJson,
              JSON_parse (SourceCode null_record) = Some sourceJson
              /\ shapeOk sourceJson = false) as Hshape.
  { split; [reflexivity|]. exists JNull. split; reflexivity. }
  assert (~ (SourceCode plain_record = ""
             /\ ABI plain_record = "Contract source code not verified")) as H'
      by (intros [E _]; discriminate E).
  split; [exact H|]. split; [exact Hshape|].
  split; [exact (proj2 (proj2 (proj2 (proj2 (null_exactly_when_unverified null_record) H)))
                       Hshape)|].
  split; [exact H'|]. split; [reflexivity|].
  exact (proj2 (proj1 (proj2 (proj2 (null_exactly_when_unverified plain_record) H')))
               (or_intror (or_introl eq_refl))).
Defined.

Lemma settings_never_carry_libraries_witness :
  ~ (SourceCode json_record = "" /\ ABI json_record = "Contract source code not verified")
  /\ prefix "vyper" (CompilerVersion json_record) = false
  /\ JSON_parse (SourceCode json_record) = Some Samples.full_json
  /\ strict_eq_string (named Samples.full_json "language") "Solidity" = true
  /\ sourcesOk (named Samples.full_json "sources") = true
  /\ (exists srcs,
        classify json_record =
          Returns (Some {| sources := srcs;
                           options :=
                             {| language := "Solidity";
                                version := CompilerVersion json_record;
                                settings :=
                                  prop_delete "libraries"
                                    (own_entries (named Samples.full_json "settings")) |} |})
        /\ forall key, key <> "libraries" ->
             prop_get key (prop_delete "libraries"
                                       (own_entries (named Samples.full_json "settings")))
             = prop_get key (own_entries (named Samples.full_json "settings")))
  /\ prop_get "libraries"
       (prop_delete "libraries" (own_entries (named Samples.full_json "settings"))) = None
  /\ prop_get "optimizer"
       (prop_delete "libraries" (own_entries (named Samples.full_json "settings")))
     = Some (JObject [("enabled", JBool true); ("runs", JNumber (Integer 1))]).
Proof.
  assert (~ (SourceCode json_record = ""
             /\ ABI json_record = "Contract source code not verified")) as H
      by (intros [E _]; discriminate E).
  split; [exact H|]. do 4 (split; [reflexivity|]).
  pose proof (proj1 (proj2 (proj2 (proj2 (settings_never_carry_libraries json_record))))
                    Samples.full_json H eq_refl eq_refl eq_refl eq_refl) as Full.
  split; [exact Full|].
  destruct Full as [srcs [E Keys]].
  split.
  - exact (proj1 (settings_never_carry_libraries json_record) _ E).
  - rewrite (Keys "optimizer"); [reflexivity|]. intros F. discriminate F.
Defined.

Lemma single_file_case_witness :
  ~ (SourceCode plain_record = "" /\ ABI plain_record = "Contract source code not verified")
  /\ prefix "vyper" (CompilerVersion plain_record) = false
  /\ JSON_parse (SourceCode plain_record) = None
  /\ exists st,
      classify plain_record =
        Returns (Some {| sources := [(makeFilename (ContractName plain_record),
                                      JString (SourceCode plain_record))];
                         options := {| language := "Solidity";
                                       version := CompilerVersion plain_record;
                                       settings := st |} |})
      /\ prop_get "optimizer" st =
           Some (JObject [("enabled", JBool (OptimizationUsed plain_record =? "1")%string);
                          ("runs", JNumber (parseInt (Runs plain_record)))])
      /\ (has_key "evmVersion" st = true <-> EVMVersion plain_record <> "Default")
      /\ (EVMVersion plain_record <> "Default" ->
            prop_get "evmVersion" st = Some (JString (EVMVersion plain_record)))
      /\ (forall key, has_key key st = true -> key = "optimizer" \/ key = "evmVersion").
Proof.
  assert (~ (SourceCode plain_record = ""
             /\ ABI plain_record = "Contract source code not verified")) as H
      by (intros [E _]; discriminate E).
  split; [exact H|]. split; [reflexivity|]. split; [reflexivity|].
  exact (single_file_case plain_record H eq_refl eq_refl).
Defined.

Lemma empty_source_is_single_file_witness :
  JSON_parse "" = None
  /\ SourceCode empty_record = ""
  /\ ABI empty_record <> "Contract source code not verified"
  /\ prefix "vyper" (CompilerVersion empty_record) = false
  /\ classify empty_record =
       Returns (Some {| sources := [(makeFilename (ContractName empty_record), JString "")];
                        options := {| language := "Solidity";
                                      version := CompilerVersion empty_record;
                                      settings := extractSettings empty_record |} |})
  /\ classify empty_record <> Returns None.
Proof.
  assert (ABI empty_record <> "Contract source code not verified") as H
      by (intros E; discriminate E).
  split; [reflexivity|]. split; [reflexivity|]. split; [exact H|]. split; [reflexivity|].
  exact (empty_source_is_single_file empty_record eq_refl eq_refl H eq_refl).
Defined.

Lemma network_validity_witness :
  networksById 5%Z = Some "goerli"
  /\ In "goerli" ["mainnet"; "ropsten"; "kovan"; "rinkeby"; "goerli"]
  /\ isNetworkValid (constructor 5%Z) = true
  /\ suffix (constructor 5%Z) = Some "-goerli"
  /\ isNetworkValid (constructor 61%Z) = false
  /\ isNetworkValid (constructor 7%Z) = false.
Proof.
  assert (In "goerli" ["mainnet"; "ropsten"; "kovan"; "rinkeby"; "goerli"]) as Hin
      by (simpl; tauto).
  split; [reflexivity|]. split; [exact Hin|].
  destruct (proj1 (network_validity (common := common) 5%Z) "goerli" eq_refl Hin) as [Hvalid [_ Hsuffix]].
  split; [exact Hvalid|].
  split; [apply Hsuffix; intros E; discriminate E|].
  split.
  - apply (proj2 (network_validity (common := common) 61%Z)). intros name E. inversion E; subst name.
    simpl. intros [F|[F|[F|[F|[F|[]]]]]]; discriminate F.
  - apply (proj2 (network_validity (common := common) 7%Z)). intros name E. discriminate E.
Defined.

Lemma two_attempts_last_error_witness :
  attemptFails (outcome failing_twice 0) (Rejection "ETIMEDOUT")
  /\ attemptFails (outcome failing_twice 1) (Error "Max rate limit reached")
  /\ snd (exec failing_twice (getSuccessfulResponse mainnet_fetcher "0xabc") (freshWorld 0%N))
     = Throws (Error "Max rate limit reached")
  /\ length (dispatched (fst (exec failing_twice
                                  (getSuccessfulResponse mainnet_fetcher "0xabc")
                                  (freshWorld 0%N)))) <= 2.
Proof.
  assert (attemptFails (outcome failing_twice 0) (Rejection "ETIMEDOUT")) as H1
      by apply transport_throws.
  assert (attemptFails (outcome failing_twice 1) (Error "Max rate limit reached")) as H2
      by apply (provider_fails rate_limited).
  split; [exact H1|]. split; [exact H2|].
  destruct (two_attempts_last_error mainnet_fetcher "0xabc" failing_twice (freshWorld 0%N))
    as [_ [T Hmost]].
  split; [|exact Hmost].
  destruct (T _ H1) as [_ [_ Hthrow]].
  exact (Hthrow _ H2).
Defined.

Lemma first_record_only_witness :
  exec answering (getSuccessfulResponse mainnet_fetcher "0xabc") (freshWorld 0%N)
    = (fst (exec answering (getSuccessfulResponse mainnet_fetcher "0xabc") (freshWorld 0%N)),
       Returns two_records)
  /\ success_result two_records = plain_record :: [vyper_record]
  /\ exec answering (fetchSourcesForAddress mainnet_fetcher "0xabc") (freshWorld 0%N)
     = (fst (exec answering (getSuccessfulResponse mainnet_fetcher "0xabc") (freshWorld 0%N)),
        classify plain_record).
Proof.
  assert (exec answering (getSuccessfulResponse mainnet_fetcher "0xabc") (freshWorld 0%N)
          = (fst (exec answering (getSuccessfulResponse mainnet_fetcher "0xabc")
                       (freshWorld 0%N)),
             Returns two_records)) as H by reflexivity.
  split; [exact H|]. split; [reflexivity|].
  destruct (first_record_only mainnet_fetcher "0xabc" answering (freshWorld 0%N) _ two_records H)
    as [_ [Hfirst _]].
  exact (Hfirst plain_record [vyper_record] eq_refl).
Defined.


(** * More worked examples *)

Import Samples.

Lemma processSources_last_wins_witness :
  eval (processSources colliding_sources) = Returns merged_sources
  /\ prop_get "a.sol" merged_sources =
     prop_get "a.sol"
       (rev (map (fun entry => (makeFilename (fst entry), contentOf (snd entry)))
                 (own_entries colliding_sources))).
Proof.
  assert (eval (processSources colliding_sources) = Returns merged_sources) as H
      by reflexivity.
  split; [exact H|].
  exact (processSources_last_wins colliding_sources _ H "a.sol").
Defined.

Lemma processSources_keys_witness :
  eval (processSources colliding_sources) = Returns merged_sources
  /\ NoDup (map fst merged_sources)
  /\ forall name,
       In name (map fst merged_sources) <->
       In name (map (fun entry => makeFilename (fst entry)) (own_entries colliding_sources)).
Proof.
  assert (eval (processSources colliding_sources) = Returns merged_sources) as H
      by reflexivity.
  split; [exact H|].
  exact (processSources_keys colliding_sources _ H).
Defined.

Lemma processSources_throws_iff_witness :
  (traversable broken_sources = false
   \/ exists path file, In (path, file) (own_entries broken_sources)
                        /\ traversable file = false)
  /\ exists e, eval (processSources broken_sources) = Throws e.
Proof.
  assert (traversable broken_sources = false
          \/ exists path file, In (path, file) (own_entries broken_sources)
                               /\ traversable file = false) as H.
  { right. exists "a.sol", JNull. split; [left; reflexivity|reflexivity]. }
  split; [exact H|].
  exact (proj2 (proj1 (processSources_throws_iff broken_sources)) H).
Defined.

Lemma multi_source_case_witness :
  ~ (SourceCode multi_record = "" /\ ABI multi_record = "Contract source code not verified")
  /\ prefix "vyper" (CompilerVersion multi_record) = false
  /\ JSON_parse (SourceCode multi_record) = Some multi_json
  /\ strict_eq_string (named multi_json "language") "Solidity" = false
  /\ sourcesOk multi_json = true
  /\ exists srcs,
      classify multi_record =
        Returns (Some {| sources := srcs;
                         options := {| language := "Solidity";
                                       version := CompilerVersion multi_record;
                                       settings := extractSettings multi_record |} |})
      /\ forall name,
           prop_get name srcs =
           prop_get name
             (rev (map (fun entry => (makeFilename (fst entry), contentOf (snd entry)))
                       (own_entries multi_json))).
Proof.
  assert (~ (SourceCode multi_record = ""
             /\ ABI multi_record = "Contract source code not verified")) as H
      by (intros [E _]; discriminate E).
  split; [exact H|]. do 4 (split; [reflexivity|]).
  exact (multi_source_case multi_record multi_json H eq_refl eq_refl eq_refl eq_refl).
Defined.

Lemma full_json_case_witness :
  ~ (SourceCode json_record = "" /\ ABI json_record = "Contract source code not verified")
  /\ prefix "vyper" (CompilerVersion json_record) = false
  /\ JSON_parse (SourceCode json_record) = Some full_json
  /\ strict_eq_string (named full_json "language") "Solidity" = true
  /\ sourcesOk (named full_json "sources") = true
  /\ exists srcs st,
      classify json_record =
        Returns (Some {| sources := srcs;
                         options := {| language := "Solidity";
                                       version := CompilerVersion json_record;
                                       settings := st |} |})
      /\ (forall name,
            prop_get name srcs =
            prop_get name
              (rev (map (fun entry => (makeFilename (fst entry), contentOf (snd entry)))
                        (own_entries (named full_json "sources")))))
      /\ prop_get "libraries" st = None
      /\ (forall key, key <> "libraries" ->
            prop_get key st = prop_get key (own_entries (named full_json "settings"))).
Proof.
  assert (~ (SourceCode json_record = ""
             /\ ABI json_record = "Contract source code not verified")) as H
      by (intros [E _]; discriminate E).
  split; [exact H|]. do 4 (split; [reflexivity|]).
  exact (full_json_case json_record full_json H eq_refl eq_refl eq_refl eq_refl).
Defined.

Lemma parsed_returns_iff_shape_witness :
  ~ (SourceCode null_record = "" /\ ABI null_record = "Contract source code not verified")
  /\ prefix "vyper" (CompilerVersion null_record) = false
  /\ JSON_parse (SourceCode null_record) = Some JNull
  /\ shapeOk (JNull : JsValue Number) = false
  /\ exists site, classify null_record = Throws (TypeError site).
Proof.
  assert (~ (SourceCode null_record = ""
             /\ ABI null_record = "Contract source code not verified")) as H
      by (intros [E _]; discriminate E).
  split; [exact H|]. do 3 (split; [reflexivity|]).
  exact (proj2 (proj2 (parsed_returns_iff_shape null_record JNull H eq_refl eq_refl)) eq_refl).
Defined.

Lemma ignored_fields_witness :
  SourceCode linked_record = SourceCode plain_record
  /\ ContractName linked_record = ContractName plain_record
  /\ CompilerVersion linked_record = CompilerVersion plain_record
  /\ OptimizationUsed linked_record = OptimizationUsed plain_record
  /\ Runs linked_record = Runs plain_record
  /\ EVMVersion linked_record = EVMVersion plain_record
  /\ (ABI linked_record = ABI plain_record \/ SourceCode linked_record <> "")
  /\ classify linked_record = classify plain_record.
Proof.
  assert (ABI linked_record = ABI plain_record \/ SourceCode linked_record <> "") as H
      by (right; intros E; discriminate E).
  do 6 (split; [reflexivity|]). split; [exact H|].
  exact (ignored_fields linked_record plain_record
           eq_refl eq_refl eq_refl eq_refl eq_refl eq_refl H).
Defined.

Lemma language_follows_compiler_witness :
  classify plain_record = Returns (Some (processSingleResult plain_record))
  /\ prefix "vyper" (CompilerVersion plain_record) = false
  /\ language (options (processSingleResult plain_record)) = "Solidity"
  /\ version (options (processSingleResult plain_record)) = CompilerVersion plain_record.
Proof.
  assert (classify plain_record = Returns (Some (processSingleResult plain_record))) as H
      by reflexivity.
  split; [exact H|]. split; [reflexivity|].
  exact (proj2 (language_follows_compiler plain_record _ H) eq_refl).
Defined.

Lemma fetch_failures_witness :
  exec failing_twice (getSuccessfulResponse mainnet_fetcher "0xabc") (freshWorld 0%N)
    = (fst (exec failing_twice (getSuccessfulResponse mainnet_fetcher "0xabc")
                 (freshWorld 0%N)),
       Throws (Error "Max rate limit reached"))
  /\ exec failing_twice (fetchSourcesForAddress mainnet_fetcher "0xabc") (freshWorld 0%N)
     = (fst (exec failing_twice (getSuccessfulResponse mainnet_fetcher "0xabc")
                  (freshWorld 0%N)),
        Throws (Error "Max rate limit reached")).
Proof.
  assert (exec failing_twice (getSuccessfulResponse mainnet_fetcher "0xabc") (freshWorld 0%N)
          = (fst (exec failing_twice (getSuccessfulResponse mainnet_fetcher "0xabc")
                       (freshWorld 0%N)),
             Throws (Error "Max rate limit reached"))) as H by reflexivity.
  split; [exact H|].
  exact (proj1 (fetch_failures mainnet_fetcher "0xabc" failing_twice (freshWorld 0%N)) _ _ H).
Defined.

Lemma retry_time_witness :
  attemptFails (outcome failing_twice (length (dispatched (freshWorld 0%N))))
               (Rejection "ETIMEDOUT")
  /\ exists t1 t2,
      map fst (dispatched (fst (exec failing_twice
                                     (getSuccessfulResponse mainnet_fetcher "0xabc")
                                     (freshWorld 0%N))))
        = t2 :: t1 :: map fst (dispatched (freshWorld 0%N))
      /\ t1 = (N.max (now (freshWorld 0%N)) (deadline (ready (freshWorld 0%N)))
               + lag failing_twice (length (dispatched (freshWorld 0%N))))%N
      /\ t2 = (N.max (t1 + latency failing_twice (length (dispatched (freshWorld 0%N))))
                     (t1 + timeout mainnet_fetcher)
               + lag failing_twice (S (length (dispatched (freshWorld 0%N)))))%N.
Proof.
  assert (attemptFails (outcome failing_twice (length (dispatched (freshWorld 0%N))))
                       (Rejection "ETIMEDOUT")) as H by apply transport_throws.
  split; [exact H|].
  exact (retry_time mainnet_fetcher "0xabc" failing_twice (freshWorld 0%N) _ H).
Defined.

Lemma at_most_two_requests_per_call_witness :
  exists final tasks,
    run mainnet_fetcher racing (freshWorld 0%N, []) = Some (final, tasks)
    /\ length (dispatched final) <= 2 * calls racing.
Proof.
  eexists. eexists. split; [reflexivity|].
  exact (at_most_two_requests_per_call mainnet_fetcher racing 0%N _ _ eq_refl).
Defined.

Lemma requests_on_supported_network_witness :
  networksById 5%Z = Some "goerli"
  /\ In "goerli" ["mainnet"; "ropsten"; "kovan"; "rinkeby"; "goerli"]
  /\ exists news,
      dispatched (fst (exec answering (fetchSourcesForAddress (constructor 5%Z) "0xabc")
                            (freshWorld 0%N)))
        = news ++ dispatched (freshWorld 0%N)
      /\ 1 <= length news <= 2
      /\ Forall (fun d =>
                   snd d = {| uri := if ("goerli" =? "mainnet")%string
                                     then "https://api.etherscan.io/api"
                                     else ("https://api-" ++ "goerli"
                                           ++ ".etherscan.io/api")%string;
                              qs_module := "contract";
                              qs_action := "getsourcecode";
                              qs_address := "0xabc";
                              qs_apikey := "";
                              json := true |}) news.
Proof.
  assert (In "goerli" ["mainnet"; "ropsten"; "kovan"; "rinkeby"; "goerli"]) as Hin
      by (simpl; tauto).
  split; [reflexivity|]. split; [exact Hin|].
  exact (requests_on_supported_network (common := common) 5%Z "goerli" "0xabc"
           answering (freshWorld 0%N) eq_refl Hin).
Defined.

Lemma requests_on_unsupported_network_witness :
  (forall name,
      networksById 7%Z = Some name ->
      ~ In name ["mainnet"; "ropsten"; "kovan"; "rinkeby"; "goerli"])
  /\ isNetworkValid (constructor 7%Z) = false
  /\ suffix (constructor 7%Z) = None
  /\ exists news,
      dispatched (fst (exec answering (fetchSourcesForAddress (constructor 7%Z) "0xabc")
                            (freshWorld 0%N)))
        = news ++ dispatched (freshWorld 0%N)
      /\ 1 <= length news <= 2
      /\ Forall (fun d => uri (snd d) = "https://apiundefined.etherscan.io/api"
                          /\ qs_address (snd d) = "0xabc") news.
Proof.
  assert (forall name,
             networksById 7%Z = Some name ->
             ~ In name ["mainnet"; "ropsten"; "kovan"; "rinkeby"; "goerli"]) as H
      by (intros name E; discriminate E).
  split; [exact H|].
  exact (requests_on_unsupported_network (common := common) 7%Z "0xabc"
           answering (freshWorld 0%N) H).
Defined.

Lemma forContract_project_witness :
  (forall a b : nat, Nat.eqb a b = true <-> a = b)
  /\ exists contracts : list nat,
      (Codec.forContract Nat.eqb 3 [1; 2] tt
         : Prog (Codec.decoderE nat unit nat nat nat) nat)
        = (wireDecoder <- Codec.forProject contracts tt ;;
           Codec.forContractWithDecoder 3 wireDecoder)
      /\ In 3 contracts
      /\ (forall other, In other contracts <-> other = 3 \/ In other [1; 2])
      /\ (In 3 [1; 2] -> contracts = [1; 2])
      /\ (~ In 3 [1; 2] -> contracts = 3 :: [1; 2])
      /\ (forall (answer : forall X, Codec.decoderE nat unit nat nat nat X -> Completion X)
                 (address : option string),
            Codec.projects answer (Codec.forContract Nat.eqb 3 [1; 2] tt) = [contracts]
            /\ Codec.projects answer (Codec.forContractInstance Nat.eqb 3 [1; 2] tt address)
               = [contracts]).
Proof.
  split; [exact Nat.eqb_eq|].
  exact (forContract_project nat unit nat nat nat Nat.eqb Nat.eqb_eq 3 [1; 2] tt).
Defined.

Lemma entryless_json_has_no_sources_witness :
  ~ (SourceCode number_record = "" /\ ABI number_record = "Contract source code not verified")
  /\ prefix "vyper" (CompilerVersion number_record) = false
  /\ JSON_parse (SourceCode number_record) = Some (JNumber (Integer 123))
  /\ traversable (JNumber (Integer 123)) = true
  /\ own_entries (JNumber (Integer 123)) = []
  /\ classify number_record =
       Returns (Some {| sources := [];
                        options := {| language := "Solidity";
                                      version := CompilerVersion number_record;
                                      settings := extractSettings number_record |} |}).
Proof.
  assert (~ (SourceCode number_record = ""
             /\ ABI number_record = "Contract source code not verified")) as H
      by (intros [E _]; discriminate E).
  split; [exact H|]. do 4 (split; [reflexivity|]).
  exact (entryless_json_has_no_sources number_record (JNumber (Integer 123))
           H eq_refl eq_refl eq_refl eq_refl).
Defined.
